(** * hololive-wiki: the [HololiveWiki] client of [src/index.js]

    A shallow embedding of the class [HololiveWiki]: the values the
    constructor receives, the normalisation of [userAgent.contact],
    [#validateOptions], [#generateHeaders], and the request manager driven
    by [#setRequest] and [#sendRequests] together with the part of the
    host runtime they talk to (timers, the abort controller, the promise
    returned by [fetch]). *)

From Stdlib Require Import Bool Arith ZArith QArith Ascii String List Lia.
Import ListNotations.

Local Open Scope list_scope.
Local Open Scope string_scope.

(** ** JavaScript values *)

(** A JavaScript number is NaN, an infinity or a finite double.  Every
    finite double is a rational, and the constructor only ever compares
    numbers, so the finite ones are carried as rationals. *)
Inductive number : Type :=
| NaN
| Infinity (negative : bool)
| Finite (q : Q).

Definition of_Z (z : Z) : number := Finite (inject_Z z).

(** [a < b] of JavaScript: false as soon as one side is NaN. *)
Definition lt (a b : number) : bool :=
  match a, b with
  | NaN, _ | _, NaN => false
  | Finite p, Finite q => negb (Qle_bool q p)
  | Finite _, Infinity negative => negb negative
  | Infinity negative, Finite _ => negative
  | Infinity n1, Infinity n2 => n1 && negb n2
  end.

(** [a > b]. *)
Definition gt (a b : number) : bool := lt b a.

#[warnings="-register-all"] Inductive value : Type :=
| VUndefined
| VNull
| VBoolean (b : bool)
| VNumber (n : number)
| VString (s : string)
| VArray (elements : list value)
| VObject.

(** [typeof v]. *)
Definition typeof (v : value) : string :=
  match v with
  | VUndefined => "undefined"
  | VNull => "object"
  | VBoolean _ => "boolean"
  | VNumber _ => "number"
  | VString _ => "string"
  | VArray _ => "object"
  | VObject => "object"
  end.

(** [v ?? d]. *)
Definition nullish (v d : value) : value :=
  match v with
  | VUndefined | VNull => d
  | _ => v
  end.

(** ** Strings

    Strings are sequences of 8-bit code units (the Latin-1 part of a
    JavaScript string), one [ascii] per unit, so that [String.length] is
    [.length]. *)

Definition code (c : ascii) : nat := nat_of_ascii c.

(** [String.prototype.toLowerCase] on one code unit: A-Z, and the
    Latin-1 capitals U+00C0..U+00DE except the multiplication sign. *)
Definition lowerChar (c : ascii) : ascii :=
  let n := code c in
  if ((65 <=? n) && (n <=? 90))%nat then ascii_of_nat (n + 32)
  else if ((192 <=? n) && (n <=? 222) && negb (n =? 215))%nat
       then ascii_of_nat (n + 32)
  else c.

Fixpoint toLowerCase (s : string) : string :=
  match s with
  | EmptyString => EmptyString
  | String c s' => String (lowerChar c) (toLowerCase s')
  end.

(** [s.includes(sub)]. *)
Fixpoint includes (s sub : string) : bool :=
  match s with
  | EmptyString => prefix sub EmptyString
  | String _ s' => prefix sub s || includes s' sub
  end.

(** A line terminator, which the regular expression atom [.] refuses
    (U+2028 and U+2029 are outside the 8-bit alphabet). *)
Definition lineTerminator (c : ascii) : bool :=
  ((code c =? 10) || (code c =? 13))%nat.

Fixpoint noLineTerminator (s : string) : bool :=
  match s with
  | EmptyString => true
  | String c s' => negb (lineTerminator c) && noLineTerminator s'
  end.

(** Splits a string into all but its last code unit, and the last. *)
Fixpoint unsnoc (s : string) : option (string * ascii) :=
  match s with
  | EmptyString => None
  | String c s' =>
      match unsnoc s' with
      | None => Some (EmptyString, c)
      | Some (init, l) => Some (String c init, l)
      end
  end.

(** [s.replace(/^\((.+)\)$/, "$1")].  The pattern is anchored at both
    ends, so it matches the whole string or nothing: an opening
    parenthesis, one or more code units that are no line terminator (the
    group), a closing parenthesis.  On a match the string is replaced by
    the group; otherwise [replace] returns it unchanged. *)
Definition replaceOuterParens (s : string) : string :=
  match s with
  | String "(" rest =>
      match unsnoc rest with
      | Some (String c group, ")"%char) =>
          if noLineTerminator (String c group) then String c group else s
      | _ => s
      end
  | _ => s
  end.

(** [Array.isArray(a) && a.every((element) => typeof element === 'string')]
    on the elements of an array: the strings, when all of them are. *)
Fixpoint everyString (elements : list value) : option (list string) :=
  match elements with
  | [] => Some []
  | VString s :: rest =>
      match everyString rest with
      | Some ss => Some (s :: ss)
      | None => None
      end
  | _ :: _ => None
  end.

(** The value the constructor stores in [this.contact]. *)
Definition normalizeContact (contact : value) : value :=
  match contact with
  | VNull => VString EmptyString
  | VString s => VString (replaceOuterParens s)
  | VArray elements =>
      match everyString elements with
      | Some ss => VString (String.concat "; " ss)
      | None => contact
      end
  | _ => contact
  end.

(** ** Construction *)

Inductive Field : Type :=
| FRequestTimeout | FRequestInterval | FName | FVersion | FContact.

(** The errors the constructor throws: the TypeError and the RangeError of
    [#validateOptions], each for one property, and the TypeError with which
    [new Headers] refuses a header. *)
Inductive Error : Type :=
| TypeError (f : Field)
| RangeError (f : Field)
| HeaderTypeError.

(** ** The [Headers] class of node-fetch

    [new Headers(init)] appends the entries of [init] in order; [append]
    validates the name and then the value and throws a TypeError for a
    name that is empty or has a code unit that is no token character
    ([/[^\^_`a-zA-Z\-0-9!#$%&'*+.|~]/]) and for a value that has a code unit
    other than tab, 0x20-0x7e and 0x80-0xff ([/[^\t\x20-\x7e\x80-\xff]/]). *)

Definition tokenChar (c : ascii) : bool :=
  let n := code c in
  ((97 <=? n) && (n <=? 122) || (65 <=? n) && (n <=? 90)
   || (48 <=? n) && (n <=? 57)
   || existsb (Nat.eqb n) [94; 95; 96; 45; 33; 35; 36; 37; 38; 39; 42; 43;
                           46; 124; 126])%nat.

Definition headerValueChar (c : ascii) : bool :=
  let n := code c in
  ((n =? 9) || (32 <=? n) && (n <=? 126) || (128 <=? n))%nat.

Fixpoint allChars (p : ascii -> bool) (s : string) : bool :=
  match s with
  | EmptyString => true
  | String c s' => p c && allChars p s'
  end.

Definition legalHeaderName (s : string) : bool :=
  negb (String.length s =? 0)%nat && allChars tokenChar s.

Definition legalHeaderValue (s : string) : bool := allChars headerValueChar s.

(** [new Headers(init)] for an object of string properties: the headers, or
    the TypeError of the first entry that is refused. *)
Fixpoint newHeaders (init : list (string * string))
  : Error + list (string * string) :=
  match init with
  | [] => inr []
  | (k, v) :: rest =>
      if negb (legalHeaderName k) then inl HeaderTypeError
      else if negb (legalHeaderValue v) then inl HeaderTypeError
      else match newHeaders rest with
           | inl e => inl e
           | inr hs => inr ((k, v) :: hs)
           end
  end.

(** [UserAgentOptions]; a property that is absent reads as [VUndefined]. *)
Record UserAgentOptions : Type := {
  ua_name : value;
  ua_version : value;
  ua_contact : value
}.

(** [HololiveWikiOptions]; [opt_userAgent = None] is an absent property,
    for which the parameter default of the constructor is taken. *)
Record HololiveWikiOptions : Type := {
  opt_requestTimeout : value;
  opt_requestInterval : value;
  opt_userAgent : option UserAgentOptions
}.

(** The properties of [this] when [#validateOptions] runs. *)
Record Properties : Type := {
  p_requestTimeout : value;
  p_requestInterval : value;
  p_name : value;
  p_version : value;
  p_contact : value
}.

Definition property (f : Field) (this : Properties) : value :=
  match f with
  | FRequestTimeout => p_requestTimeout this
  | FRequestInterval => p_requestInterval this
  | FName => p_name this
  | FVersion => p_version this
  | FContact => p_contact this
  end.

(** The same properties once the [typeof] checks of [#validateOptions]
    have narrowed them. *)
Record Validated : Type := {
  requestTimeout : number;
  requestInterval : number;
  name : string;
  version : string;
  contact : string
}.

(** The frozen client. *)
Record HololiveWiki : Type := {
  options : Validated;
  userAgent : string;
  headers : list (string * string)
}.

Section Construction.

(** [package.json] is not part of the sources: its name and version, the
    [repository] property and the part of [author] between the angle
    brackets are parameters. *)
Variables packageName packageVersion : string.
Variables packageRepository packageAuthorAddress : string.

(** [semver/functions/valid], an external library, as a test on the
    version string. *)
Variable semverValid : string -> bool.

(** The default of the [userAgent] parameter. *)
Definition defaultUserAgent : UserAgentOptions :=
  {| ua_name := VString (packageName ++ " bot for Node");
     ua_version := VString packageVersion;
     ua_contact :=
       VArray [VString ("https://github.com/" ++ packageRepository);
               VString packageAuthorAddress] |}.

(** [#validateOptions]: the checks in source order, the first failing one
    throws.  Where the source returns nothing, the embedding returns the
    properties narrowed by the [typeof] checks. *)
Definition validateOptions (this : Properties) : Error + Validated :=
  match p_requestTimeout this with
  | VNumber timeout =>
    if lt timeout (of_Z 500) then inl (RangeError FRequestTimeout)
    else if gt timeout (of_Z 30000) then inl (RangeError FRequestTimeout)
    else
    match p_requestInterval this with
    | VNumber interval =>
      if lt interval (of_Z 500) then inl (RangeError FRequestInterval)
      else if gt interval (of_Z 5000) then inl (RangeError FRequestInterval)
      else
      match p_name this with
      | VString n =>
        if (256 <? String.length n)%nat then inl (RangeError FName)
        else if negb (includes (toLowerCase n) "bot")
             then inl (RangeError FName)
        else
        match p_version this with
        | VString v =>
          if negb (semverValid v) then inl (RangeError FVersion)
          else
          match p_contact this with
          | VString c =>
            if (256 <? String.length c)%nat then inl (RangeError FContact)
            else inr {| requestTimeout := timeout;
                        requestInterval := interval;
                        name := n; version := v; contact := c |}
          | _ => inl (TypeError FContact)
          end
        | _ => inl (TypeError FVersion)
        end
      | _ => inl (TypeError FName)
      end
    | _ => inl (TypeError FRequestInterval)
    end
  | _ => inl (TypeError FRequestTimeout)
  end.

(** The template literal of [#generateHeaders]; an empty string is the
    only falsy string. *)
Definition formatUserAgent (this : Validated) : string :=
  name this ++ "/" ++ version this ++ " "
    ++ (if (String.length (contact this) =? 0)%nat then EmptyString
        else "(" ++ contact this ++ ") ")
    ++ packageName ++ "/" ++ packageVersion.

(** [#generateHeaders]: the client with its User-Agent and headers, or the
    TypeError thrown by [new Headers]. *)
Definition generateHeaders (this : Validated) : Error + HololiveWiki :=
  let ua := formatUserAgent this in
  match newHeaders [("User-Agent", ua);
                    ("Accept-Encoding", "gzip");
                    ("Connection", "keep-alive")] with
  | inl e => inl e
  | inr hs => inr {| options := this; userAgent := ua; headers := hs |}
  end.

(** The properties the constructor assigns before validating. *)
Definition assignProperties (o : HololiveWikiOptions) : Properties :=
  let ua := match opt_userAgent o with
            | Some ua => ua
            | None => defaultUserAgent
            end in
  {| p_requestTimeout := nullish (opt_requestTimeout o) (VNumber (of_Z 10000));
     p_requestInterval := nullish (opt_requestInterval o) (VNumber (of_Z 1000));
     p_name := ua_name ua;
     p_version := ua_version ua;
     p_contact := normalizeContact (ua_contact ua) |}.

(** [new HololiveWiki(options)]: the thrown error, or the client. *)
Definition construct (o : HololiveWikiOptions) : Error + HololiveWiki :=
  match validateOptions (assignProperties o) with
  | inl e => inl e
  | inr this => generateHeaders this
  end.

End Construction.

(** ** The request manager and the runtime it runs on

    Timestamps and durations are integer milliseconds, as [Date.now()]
    returns them; on integers of this size the arithmetic of JavaScript
    numbers is exact. *)

Definition TimerId : Type := nat.
Definition ControllerId : Type := nat.

(** The two function values the class hands to [setTimeout].  Both are
    read off an object as a property ([this.#sendRequests],
    [controller.abort]) and passed on their own: the function value keeps
    no reference to the object it was read from, and [setTimeout] calls it
    with the timer object as [this]. *)
Inductive Callback : Type :=
| SendRequestsMethod
| AbortMethod.

(** The receiver ([this]) of a call. *)
Inductive Receiver : Type :=
| ThisClient
| ThisTimer (id : TimerId)
| ThisController (c : ControllerId).

(** Both exceptions are TypeErrors of the runtime: a private member read
    on an object that is no instance of the class, and a built-in method
    called on a receiver of the wrong kind. *)
Inductive Exception : Type :=
| PrivateMemberTypeError
| InvalidThisTypeError.

Record Timer : Type := {
  timerId : TimerId;
  callback : Callback;
  delay : Z;
  armedAt : Z
}.

(** The arguments of one [fetch] call. *)
Record Request : Type := {
  url : string;
  method : string;
  requestHeaders : list (string * string);
  signal : ControllerId
}.

(** A [fetch] promise that has not settled, with the constant [timeout]
    its [finally] callback closes over. *)
Record Call : Type := {
  request : Request;
  guard : TimerId
}.

(** [new URLSearchParams(params).toString()], for keys and values that
    need no escaping. *)
Definition urlSearchParams (params : list (string * string)) : string :=
  String.concat "&" (map (fun kv => fst kv ++ "=" ++ snd kv) params).

(** [isBefore] of date-fns on two timestamps. *)
Definition isBefore (date dateToCompare : Z) : bool :=
  (date <? dateToCompare)%Z.

(** What [setTimeout] makes of its delay: below 1 ms or above
    2^31 - 1 ms it waits 1 ms. *)
Definition effectiveDelay (d : Z) : Z :=
  if ((d <? 1) || (2147483647 <? d))%Z then 1%Z else d.

Definition due (t : Timer) : Z := (armedAt t + effectiveDelay (delay t))%Z.

(** Whether a timer will call [#sendRequests]. *)
Definition callsSendRequests (t : Timer) : bool :=
  match callback t with
  | SendRequestsMethod => true
  | AbortMethod => false
  end.

Section Requests.

Variable RequestData : Type.

(** [#requestManager]. *)
Record RequestManager : Type := {
  queue : list RequestData;
  nextReq : Z;
  timeout : option TimerId
}.

(** The private state of one client and the state of the runtime around
    it: armed timers, pending [fetch] promises, the controllers whose
    signal is aborted, every [fetch] call made so far, and the counters
    from which timer and controller identities are drawn. *)
Record World : Type := {
  requestManager : RequestManager;
  timers : list Timer;
  inFlight : list Call;
  aborted : list ControllerId;
  sent : list Request;
  nextTimer : TimerId;
  nextController : ControllerId
}.

(** A client just constructed: the field initialiser of
    [#requestManager], and nothing armed or sent. *)
Definition initial : World :=
  {| requestManager := {| queue := []; nextReq := 0%Z; timeout := None |};
     timers := []; inFlight := []; aborted := []; sent := [];
     nextTimer := 1%nat; nextController := 1%nat |}.

Inductive Completion : Type :=
| Normal (w : World)
| Throw (e : Exception) (w : World).

Definition worldOf (c : Completion) : World :=
  match c with
  | Normal w => w
  | Throw _ w => w
  end.

Definition withManager (m : RequestManager) (w : World) : World :=
  {| requestManager := m; timers := timers w; inFlight := inFlight w;
     aborted := aborted w; sent := sent w;
     nextTimer := nextTimer w; nextController := nextController w |}.

Definition withTimers (ts : list Timer) (w : World) : World :=
  {| requestManager := requestManager w; timers := ts;
     inFlight := inFlight w; aborted := aborted w; sent := sent w;
     nextTimer := nextTimer w; nextController := nextController w |}.

(** [setTimeout(cb, d)] at time [now]: the handle, and the world with
    the timer armed. *)
Definition setTimeout (cb : Callback) (d now : Z) (w : World)
  : TimerId * World :=
  let id := nextTimer w in
  (id,
   {| requestManager := requestManager w;
      timers := timers w ++ [{| timerId := id; callback := cb;
                                 delay := d; armedAt := now |}];
      inFlight := inFlight w; aborted := aborted w; sent := sent w;
      nextTimer := S id; nextController := nextController w |}).

(** [clearTimeout(id)]: nothing happens when the timer has fired. *)
Definition clearTimeout (id : TimerId) (w : World) : World :=
  withTimers (filter (fun t => negb (timerId t =? id)%nat) (timers w)) w.

(** The frozen properties of the client that the two methods read. *)
Variables requestTimeout requestInterval : Z.
Variable headers : list (string * string).

(** The delay [#setRequest] passes to [setTimeout]. *)
Definition requestDelay (m : RequestManager) (now : Z) : Z :=
  if isBefore (nextReq m) now then requestInterval
  else (nextReq m - now)%Z.

(** [#setRequest(data)], called on [this] at time [now]; the call is over
    within the millisecond, so both reads of [Date.now()] give [now]. *)
Definition setRequest (this : Receiver) (data : RequestData) (now : Z)
           (w : World) : Completion :=
  match this with
  | ThisClient =>
      let m := requestManager w in
      let m1 := {| queue := queue m ++ [data]; nextReq := nextReq m;
                   timeout := timeout m |} in
      let w1 := withManager m1 w in
      match timeout m1 with
      | None =>
          let (id, w2) :=
            setTimeout SendRequestsMethod (requestDelay m1 now) now w1 in
          Normal (withManager {| queue := queue m1; nextReq := nextReq m1;
                                 timeout := Some id |} w2)
      | Some _ => Normal w1
      end
  | _ => Throw PrivateMemberTypeError w
  end.

(** The [fetch] call of [#sendRequests]. *)
Definition apiRequest (controller : ControllerId) : Request :=
  {| url := "https://hololive.wiki/w/api.php?"
            ++ urlSearchParams [("action", "query"); ("format", "json")];
     method := "GET";
     requestHeaders := headers;
     signal := controller |}.

(** [#sendRequests()], called on [this] at time [now].  Its first
    statement reads [this.#requestManager]; a private name can be read on
    instances of the class only, so the read throws a TypeError unless
    [this] is the client.  The queue is not read. *)
Definition sendRequests (this : Receiver) (now : Z) (w : World)
  : Completion :=
  match this with
  | ThisClient =>
      let m := requestManager w in
      let w1 := withManager {| queue := queue m;
                               nextReq := (now + requestInterval)%Z;
                               timeout := timeout m |} w in
      let controller := nextController w1 in
      let (guardId, w2) := setTimeout AbortMethod requestTimeout now w1 in
      let r := apiRequest controller in
      Normal {| requestManager := requestManager w2;
                timers := timers w2;
                inFlight := inFlight w2 ++ [{| request := r;
                                               guard := guardId |}];
                aborted := aborted w2;
                sent := sent w2 ++ [r];
                nextTimer := nextTimer w2;
                nextController := S controller |}
  | _ => Throw PrivateMemberTypeError w
  end.

(** [AbortController.prototype.abort], called on [this]: it aborts the
    signal of the controller it is called on, and throws a TypeError on
    any other receiver. *)
Definition abort (this : Receiver) (w : World) : Completion :=
  match this with
  | ThisController c =>
      Normal {| requestManager := requestManager w; timers := timers w;
                inFlight := inFlight w; aborted := aborted w ++ [c];
                sent := sent w;
                nextTimer := nextTimer w;
                nextController := nextController w |}
  | _ => Throw InvalidThisTypeError w
  end.

Definition invoke (cb : Callback) (this : Receiver) (now : Z) (w : World)
  : Completion :=
  match cb with
  | SendRequestsMethod => sendRequests this now w
  | AbortMethod => abort this w
  end.

Definition findTimer (id : TimerId) (w : World) : option Timer :=
  find (fun t => (timerId t =? id)%nat) (timers w).

(** The runtime runs timer [id] at time [now]: the timer leaves the
    table and its callback is called with the timer object as [this].
    [None] when the timer is not armed or not yet due. *)
Definition runTimer (id : TimerId) (now : Z) (w : World)
  : option Completion :=
  match findTimer id w with
  | Some t =>
      if (due t <=? now)%Z
      then Some (invoke (callback t) (ThisTimer id) now (clearTimeout id w))
      else None
  | None => None
  end.

Definition findCall (c : ControllerId) (w : World) : option Call :=
  find (fun k => (signal (request k) =? c)%nat) (inFlight w).

(** The promise of the [fetch] call with signal [c] settles, fulfilled
    or rejected.  The [then] and [catch] callbacks are empty, and the
    [finally] callback clears the timer it closed over.  [None] when no
    such call is pending. *)
Definition settle (c : ControllerId) (fulfilled : bool) (w : World)
  : option World :=
  match findCall c w with
  | Some k =>
      let w1 :=
        {| requestManager := requestManager w; timers := timers w;
           inFlight := filter (fun k' => negb (signal (request k') =? c)%nat)
                              (inFlight w);
           aborted := aborted w; sent := sent w;
           nextTimer := nextTimer w;
           nextController := nextController w |} in
      Some (clearTimeout (guard k) w1)
  | None => None
  end.

(** What can happen to a client: a call of one of its two methods on the
    client itself, a timer running, a [fetch] promise settling. *)
Inductive Event : Type :=
| CallSetRequest (data : RequestData)
| CallSendRequests
| TimerRuns (id : TimerId)
| Settles (c : ControllerId) (fulfilled : bool).

(** One event at time [now].  An event that cannot happen leaves the
    world as it is; an exception thrown by a callback is not caught by
    anything in the class, and the world is the one it left behind. *)
Definition step (now : Z) (e : Event) (w : World) : World :=
  match e with
  | CallSetRequest data => worldOf (setRequest ThisClient data now w)
  | CallSendRequests => worldOf (sendRequests ThisClient now w)
  | TimerRuns id =>
      match runTimer id now w with
      | Some c => worldOf c
      | None => w
      end
  | Settles c fulfilled =>
      match settle c fulfilled w with
      | Some w' => w'
      | None => w
      end
  end.

Fixpoint run (trace : list (Z * Event)) (w : World) : World :=
  match trace with
  | [] => w
  | (now, e) :: rest => run rest (step now e w)
  end.

(** The armed timers that will call [#sendRequests]. *)
Definition dispatchTimers (w : World) : list Timer :=
  filter callsSendRequests (timers w).

End Requests.

Arguments queue {RequestData} _.
Arguments nextReq {RequestData} _.
Arguments timeout {RequestData} _.
Arguments requestManager {RequestData} _.
Arguments timers {RequestData} _.
Arguments inFlight {RequestData} _.
Arguments aborted {RequestData} _.
Arguments sent {RequestData} _.
Arguments nextTimer {RequestData} _.
Arguments nextController {RequestData} _.
Arguments Normal {RequestData} _.
Arguments Throw {RequestData} _ _.
Arguments worldOf {RequestData} _.
Arguments clearTimeout {RequestData} _ _.
Arguments setTimeout {RequestData} _ _ _ _.
Arguments abort {RequestData} _ _.
Arguments findTimer {RequestData} _ _.
Arguments findCall {RequestData} _ _.
Arguments settle {RequestData} _ _ _.
Arguments dispatchTimers {RequestData} _.
Arguments initial {RequestData}.
Arguments CallSetRequest {RequestData} _.
Arguments CallSendRequests {RequestData}.
Arguments TimerRuns {RequestData} _.
Arguments Settles {RequestData} _ _.

(** An instance of the [semverValid] parameter for closed examples: it
    accepts MAJOR.MINOR.PATCH with three decimal numerals that have no
    leading zero, which are valid for the semver library as well. *)
Definition isDigit (c : ascii) : bool :=
  ((48 <=? code c) && (code c <=? 57))%nat.

Fixpoint allDigits (s : string) : bool :=
  match s with
  | EmptyString => true
  | String c s' => isDigit c && allDigits s'
  end.

Definition numeral (s : string) : bool :=
  match s with
  | EmptyString => false
  | String "0" EmptyString => true
  | String "0" _ => false
  | _ => allDigits s
  end.

Fixpoint splitDots (s : string) : list string :=
  match s with
  | EmptyString => [EmptyString]
  | String "." s' => EmptyString :: splitDots s'
  | String c s' =>
      match splitDots s' with
      | part :: parts => String c part :: parts
      | [] => [String c EmptyString]
      end
  end.

Definition plainSemver (v : string) : bool :=
  match splitDots v with
  | [major; minor; patch] => numeral major && numeral minor && numeral patch
  | _ => false
  end.


(** ** What the checks of [#validateOptions] decide

    The checks run in the order of [position]; for each property there is
    a kind it must have and a condition its value must meet. *)

Definition position (f : Field) : nat :=
  match f with
  | FRequestTimeout => 0
  | FRequestInterval => 1
  | FName => 2
  | FVersion => 3
  | FContact => 4
  end.

Definition before (g f : Field) : Prop := (position g < position f)%nat.

Definition expectedType (f : Field) : string :=
  match f with
  | FRequestTimeout | FRequestInterval => "number"
  | FName | FVersion | FContact => "string"
  end.

Definition wrongKind (f : Field) (this : Properties) : Prop :=
  typeof (property f this) <> expectedType f.

(** A number that compares below [lo] or above [hi]; NaN compares with
    nothing. *)
Definition outside (lo hi : Z) (n : number) : Prop :=
  match n with
  | NaN => False
  | Infinity _ => True
  | Finite q => (q < inject_Z lo \/ inject_Z hi < q)%Q
  end.

(** The string has a substring that is "bot" up to letter case. *)
Definition mentionsBot (s : string) : Prop :=
  exists pre w post, s = pre ++ w ++ post /\ toLowerCase w = "bot".

Definition violates (semverValid : string -> bool) (f : Field)
           (this : Properties) : Prop :=
  match f with
  | FRequestTimeout =>
      exists n, p_requestTimeout this = VNumber n /\ outside 500 30000 n
  | FRequestInterval =>
      exists n, p_requestInterval this = VNumber n /\ outside 500 5000 n
  | FName =>
      exists s, p_name this = VString s
                /\ ((256 < String.length s)%nat \/ ~ mentionsBot s)
  | FVersion =>
      exists s, p_version this = VString s /\ semverValid s = false
  | FContact =>
      exists s, p_contact this = VString s /\ (256 < String.length s)%nat
  end.

Definition accepted (semverValid : string -> bool) (f : Field)
           (this : Properties) : Prop :=
  ~ wrongKind f this /\ ~ violates semverValid f this.

(** The properties with one timing option replaced. *)
Definition withRequestTimeout (v : value) (this : Properties) : Properties :=
  {| p_requestTimeout := v; p_requestInterval := p_requestInterval this;
     p_name := p_name this; p_version := p_version this;
     p_contact := p_contact this |}.

Definition withRequestInterval (v : value) (this : Properties) : Properties :=
  {| p_requestTimeout := p_requestTimeout this; p_requestInterval := v;
     p_name := p_name this; p_version := p_version this;
     p_contact := p_contact this |}.

(** The client [#generateHeaders] completes when [new Headers] accepts the
    User-Agent. *)
Definition builtClient (packageName packageVersion : string)
           (this : Validated) : HololiveWiki :=
  {| options := this;
     userAgent := formatUserAgent packageName packageVersion this;
     headers := [("User-Agent", formatUserAgent packageName packageVersion this);
                 ("Accept-Encoding", "gzip");
                 ("Connection", "keep-alive")] |}.

(** The constructor argument with one timing option replaced. *)
Definition withTimeoutOption (v : value) (o : HololiveWikiOptions)
  : HololiveWikiOptions :=
  {| opt_requestTimeout := v; opt_requestInterval := opt_requestInterval o;
     opt_userAgent := opt_userAgent o |}.

Definition withIntervalOption (v : value) (o : HololiveWikiOptions)
  : HololiveWikiOptions :=
  {| opt_requestTimeout := opt_requestTimeout o; opt_requestInterval := v;
     opt_userAgent := opt_userAgent o |}.

(** The [userAgent] option the constructor works with. *)
Definition chosenUserAgent
           (packageName packageVersion packageRepository packageAuthorAddress
            : string)
           (o : HololiveWikiOptions) : UserAgentOptions :=
  match opt_userAgent o with
  | Some ua => ua
  | None => defaultUserAgent packageName packageVersion packageRepository
                             packageAuthorAddress
  end.

(** Properties that pass every check, for closed examples. *)
Definition sampleProperties : Properties :=
  {| p_requestTimeout := VNumber (of_Z 10000);
     p_requestInterval := VNumber (of_Z 1000);
     p_name := VString "abot";
     p_version := VString "1.0.0";
     p_contact := VString EmptyString |}.

(** A constructor argument for closed examples: default timing options and
    a [userAgent] with a [null] contact. *)
Definition sampleOptions : HololiveWikiOptions :=
  {| opt_requestTimeout := VUndefined;
     opt_requestInterval := VUndefined;
     opt_userAgent := Some {| ua_name := VString "abot";
                              ua_version := VString "1.0.0";
                              ua_contact := VNull |} |}.

Arguments withManager {RequestData} _ _.
Arguments withTimers {RequestData} _ _.
Arguments requestDelay {RequestData} _ _ _.
Arguments setRequest {RequestData} _ _ _ _ _.
Arguments sendRequests {RequestData} _ _ _ _ _ _.
Arguments invoke {RequestData} _ _ _ _ _ _ _.
Arguments runTimer {RequestData} _ _ _ _ _ _.
Arguments step {RequestData} _ _ _ _ _ _.
Arguments run {RequestData} _ _ _ _ _.

(** The headers of a client for closed examples. *)
Definition sampleHeaders : list (string * string) :=
  [("User-Agent", "abot/1.0.0 hololive-wiki/0.1.0");
   ("Accept-Encoding", "gzip");
   ("Connection", "keep-alive")].

(** Single flight: when the handle is empty no dispatch timer is armed,
    and never more than one is. *)
Definition singleFlight {RequestData : Type} (w : World RequestData) : Prop :=
  (timeout (requestManager w) = None -> dispatchTimers w = [])
  /\ (length (dispatchTimers w) <= 1)%nat.

(** ** The earlier version of the class

    The file opens with an earlier [HololiveWiki], which has no request
    manager: its constructor takes the user-agent options themselves and
    validates them in [#generateUserAgent]. *)

(** The client of the earlier version. *)
Record EarlierWiki : Type := {
  e_name : string;
  e_version : string;
  e_contact : string;
  e_userAgent : string
}.

(** [if (options.contact === null) options.contact = ""]: the assignment
    is to the object the caller passed. *)
Definition emptyNullContact (o : UserAgentOptions) : UserAgentOptions :=
  match ua_contact o with
  | VNull => {| ua_name := ua_name o; ua_version := ua_version o;
                ua_contact := VString EmptyString |}
  | _ => o
  end.

(** The value of the [contact] property the earlier constructor defines;
    it has no case for [null], which [emptyNullContact] has replaced. *)
Definition storedContact (contact : value) : value :=
  match contact with
  | VString s => VString (replaceOuterParens s)
  | VArray elements =>
      match everyString elements with
      | Some ss => VString (String.concat "; " ss)
      | None => contact
      end
  | _ => contact
  end.

Section EarlierVersion.

(** The package data again; the address is here the run of non-blank
    characters between the angle brackets of [author]. *)
Variables packageName packageVersion packageAuthorAddress : string.
Variable semverValid : string -> bool.

(** The default of the [options] parameter. *)
Definition defaultOptions : UserAgentOptions :=
  {| ua_name := VString (packageName ++ " bot for Node");
     ua_version := VString packageVersion;
     ua_contact := VString packageAuthorAddress |}.

(** [#generateUserAgent] on the three properties of [this].  The check
    under "validate contact" compares [this.name.length], as the source
    does. *)
Definition generateUserAgent (name version contact : value)
  : Error + EarlierWiki :=
  match name with
  | VString n =>
    if (256 <? String.length n)%nat then inl (RangeError FName)
    else if negb (includes (toLowerCase n) "bot") then inl (RangeError FName)
    else
    match version with
    | VString v =>
      if negb (semverValid v) then inl (RangeError FVersion)
      else
      match contact with
      | VString c =>
        if (256 <? String.length n)%nat then inl (RangeError FContact)
        else inr {| e_name := n; e_version := v; e_contact := c;
                    e_userAgent :=
                      n ++ "/" ++ v ++ " "
                        ++ (if (String.length c =? 0)%nat then EmptyString
                            else "(" ++ c ++ ") ")
                        ++ packageName ++ "/" ++ packageVersion |}
      | _ => inl (TypeError FContact)
      end
    | _ => inl (TypeError FVersion)
    end
  | _ => inl (TypeError FName)
  end.

(** [new HololiveWiki(options)] of the earlier version: the options object
    as the constructor leaves it, and the thrown error or the client.
    [None] is an absent argument. *)
Definition constructEarlier (options : option UserAgentOptions)
  : UserAgentOptions * (Error + EarlierWiki) :=
  let o := emptyNullContact (match options with
                             | Some o => o
                             | None => defaultOptions
                             end) in
  (o, generateUserAgent (ua_name o) (ua_version o)
                        (storedContact (ua_contact o))).

End EarlierVersion.

(** ** Runs of the request manager *)

(** The descriptors a run hands to [#setRequest], in order. *)
Fixpoint submitted {RequestData : Type} (trace : list (Z * Event RequestData))
  : list RequestData :=
  match trace with
  | [] => []
  | (_, CallSetRequest data) :: rest => data :: submitted rest
  | _ :: rest => submitted rest
  end.

(** A run in which [#sendRequests] is reached through timers only, as in
    the class, where [setTimeout] in [#setRequest] is its only use. *)
Fixpoint timerDriven {RequestData : Type} (trace : list (Z * Event RequestData))
  : bool :=
  match trace with
  | [] => true
  | (_, CallSendRequests) :: _ => false
  | _ :: rest => timerDriven rest
  end.

(** Identities are drawn from the counters: the armed timers have distinct
    identities below [nextTimer], and the pending calls have distinct
    guards below [nextTimer] and distinct signals below [nextController]. *)
Definition wellFormed {RequestData : Type} (w : World RequestData) : Prop :=
  NoDup (map timerId (timers w))
  /\ (forall t, In t (timers w) -> (timerId t < nextTimer w)%nat)
  /\ NoDup (map guard (inFlight w))
  /\ (forall k, In k (inFlight w) -> (guard k < nextTimer w)%nat)
  /\ NoDup (map (fun k => signal (request k)) (inFlight w))
  /\ (forall k, In k (inFlight w) ->
                (signal (request k) < nextController w)%nat).

(** The argument of [new HololiveWiki()]: every option absent. *)
Definition noOptions : HololiveWikiOptions :=
  {| opt_requestTimeout := VUndefined;
     opt_requestInterval := VUndefined;
     opt_userAgent := None |}.

(** A timing value [#validateOptions] lets through: NaN, or a finite
    number between the bounds. *)
Definition timingAllowed (lo hi : Z) (n : number) : Prop :=
  n = NaN \/ exists q, n = Finite q /\ (inject_Z lo <= q <= inject_Z hi)%Q.

(** Every armed abort timer is the guard of a pending call. *)
Definition guardsPending {RequestData : Type} (w : World RequestData) : Prop :=
  forall t, In t (timers w) -> callback t = AbortMethod ->
            exists k, In k (inFlight w) /\ guard k = timerId t.
(** ** Properties of the contact normalisation *)

Lemma unsnoc_last (s : string) (c : ascii) :
  unsnoc (s ++ String c EmptyString) = Some (s, c).
Proof.
  induction s as [|a s IH]; simpl.
  - reflexivity.
  - rewrite IH. reflexivity.
Qed.

Lemma everyString_strings (ss : list string) :
  everyString (map VString ss) = Some ss.
Proof.
  induction ss as [|s ss IH]; simpl.
  - reflexivity.
  - rewrite IH. reflexivity.
Qed.

Lemma replaceOuterParens_wrapped (t : string) :
  t <> EmptyString -> noLineTerminator t = true ->
  replaceOuterParens ("(" ++ t ++ ")") = t.
Proof.
  intros Hne Hlt.
  destruct t as [|c t]; [congruence|].
  change ("(" ++ String c t ++ ")") with (String "(" (String c t ++ ")")).
  unfold replaceOuterParens.
  rewrite unsnoc_last, Hlt. reflexivity.
Qed.

(** The pair is taken off once, not repeatedly. *)
Example replaceOuterParens_once :
  replaceOuterParens "((a))" = "(a)"
  /\ replaceOuterParens "(123-4567)" = "123-4567".
Proof. split; reflexivity. Qed.

(** Strings the pattern does not match are kept. *)
Example replaceOuterParens_kept :
  replaceOuterParens "()" = "()"
  /\ replaceOuterParens "a (b)" = "a (b)"
  /\ replaceOuterParens ("(a" ++ String (ascii_of_nat 10) "b)")
     = "(a" ++ String (ascii_of_nat 10) "b)".
Proof. repeat split. Qed.

(** ** Properties of the string and number primitives *)

Lemma prefix_app (a b : string) :
  prefix a b = true <-> exists post, b = a ++ post.
Proof.
  revert b. induction a as [|x a IH]; intros b; simpl.
  - destruct b; split; eauto.
  - destruct b as [|y b].
    + split; [discriminate | intros [post H]; discriminate].
    + simpl. destruct (ascii_dec x y) as [->|Hxy].
      * split.
        -- intros H. apply IH in H. destruct H as [post H]. exists post.
           now rewrite H.
        -- intros [post H]. apply IH. exists post. now injection H.
      * split; [discriminate | intros [post H]; injection H; congruence].
Qed.

Lemma includes_app (s sub : string) :
  includes s sub = true <-> exists pre post, s = pre ++ sub ++ post.
Proof.
  induction s as [|c s IH]; cbn [includes].
  - rewrite prefix_app. split.
    + intros [post H]. exists EmptyString, post. exact H.
    + intros [pre [post H]]. destruct pre; [eauto | discriminate].
  - rewrite orb_true_iff, prefix_app, IH. split.
    + intros [[post H] | [pre [post H]]].
      * exists EmptyString, post. exact H.
      * exists (String c pre), post. simpl. now rewrite H.
    + intros [pre [post H]]. destruct pre as [|c' pre].
      * left. exists post. exact H.
      * right. exists pre, post. simpl in H. now injection H.
Qed.

Lemma toLowerCase_app (a b : string) :
  toLowerCase (a ++ b) = toLowerCase a ++ toLowerCase b.
Proof.
  induction a as [|c a IH]; simpl; [reflexivity | now rewrite IH].
Qed.

Lemma toLowerCase_split (a b s : string) :
  toLowerCase s = a ++ b ->
  exists s1 s2, s = s1 ++ s2 /\ toLowerCase s1 = a /\ toLowerCase s2 = b.
Proof.
  revert s. induction a as [|x a IH]; intros s H.
  - exists EmptyString, s. auto.
  - destruct s as [|c s]; [discriminate|].
    simpl in H. injection H as Hx Hs.
    destruct (IH s Hs) as [s1 [s2 [-> [H1 H2]]]].
    exists (String c s1), s2. simpl. rewrite Hx, H1. auto.
Qed.

Lemma mentionsBot_includes (s : string) :
  mentionsBot s <-> includes (toLowerCase s) "bot" = true.
Proof.
  rewrite includes_app. split.
  - intros [pre [w [post [-> Hw]]]].
    exists (toLowerCase pre), (toLowerCase post).
    now rewrite !toLowerCase_app, Hw.
  - intros [pre [post H]].
    destruct (toLowerCase_split _ _ _ H) as [s1 [s2 [-> [_ H2]]]].
    destruct (toLowerCase_split _ _ _ H2) as [w [s3 [-> [Hw _]]]].
    exists s1, w, s3. auto.
Qed.

Lemma lt_Finite (p q : Q) : lt (Finite p) (Finite q) = true <-> (p < q)%Q.
Proof.
  simpl. rewrite negb_true_iff. split.
  - intros H. apply Qnot_le_lt. intros Hle.
    apply Qle_bool_iff in Hle. congruence.
  - intros H. destruct (Qle_bool q p) eqn:E; [|reflexivity].
    apply Qle_bool_iff in E. exfalso. exact (Qlt_not_le _ _ H E).
Qed.

Lemma compare_outside (lo hi : Z) (n : number) :
  lt n (of_Z lo) = true \/ gt n (of_Z hi) = true <-> outside lo hi n.
Proof.
  unfold gt, of_Z. destruct n as [|negative|q].
  - simpl. intuition discriminate.
  - destruct negative; simpl; intuition.
  - rewrite !lt_Finite. reflexivity.
Qed.

(** ** Properties of [#validateOptions] *)

Section ValidateOptions.

Variable semverValid : string -> bool.

Lemma position_inj (f g : Field) : position f = position g -> f = g.
Proof. destruct f, g; simpl; intros H; congruence. Qed.

Lemma violates_right_kind (f : Field) (this : Properties) :
  violates semverValid f this -> ~ wrongKind f this.
Proof.
  unfold wrongKind.
  destruct f; simpl; intros [x [E _]]; rewrite E; simpl; congruence.
Qed.

Lemma accepted_number (f : Field) (this : Properties) (lo hi : Z) (n : number) :
  property f this = VNumber n ->
  expectedType f = "number" ->
  (violates semverValid f this ->
   exists m, property f this = VNumber m /\ outside lo hi m) ->
  lt n (of_Z lo) = false -> gt n (of_Z hi) = false ->
  accepted semverValid f this.
Proof.
  intros E K V Hlo Hhi. split.
  - unfold wrongKind. rewrite E, K. simpl. congruence.
  - intros Hv. destruct (V Hv) as [m [Em Hm]].
    assert (m = n) by congruence. subst m.
    apply compare_outside in Hm. destruct Hm; congruence.
Qed.

Ltac earlier :=
  let g := fresh "g" in
  let Hg := fresh "Hg" in
  intros g Hg; destruct g; unfold before in Hg; simpl in Hg;
  try lia; assumption.

Ltac wrong E :=
  split; [unfold wrongKind; simpl; rewrite E; simpl; discriminate | earlier].

(** Whatever [#validateOptions] answers is justified by the first
    property, in source order, that is not accepted. *)
Lemma validateOptions_sound (this : Properties) :
  match validateOptions semverValid this with
  | inl (TypeError f) =>
      wrongKind f this /\ forall g, before g f -> accepted semverValid g this
  | inl (RangeError f) =>
      violates semverValid f this
      /\ forall g, before g f -> accepted semverValid g this
  | inl HeaderTypeError => False
  | inr v =>
      (forall f, accepted semverValid f this)
      /\ this = {| p_requestTimeout := VNumber (requestTimeout v);
                   p_requestInterval := VNumber (requestInterval v);
                   p_name := VString (name v);
                   p_version := VString (version v);
                   p_contact := VString (contact v) |}
  end.
Proof.
  unfold validateOptions.
  destruct (p_requestTimeout this) as [| | |t| | |] eqn:E1; try wrong E1.
  destruct (lt t (of_Z 500)) eqn:L1.
  { split; [|earlier]. exists t. split; [exact E1|].
    apply compare_outside. now left. }
  destruct (gt t (of_Z 30000)) eqn:G1.
  { split; [|earlier]. exists t. split; [exact E1|].
    apply compare_outside. now right. }
  assert (A1 : accepted semverValid FRequestTimeout this).
  { apply (accepted_number FRequestTimeout this 500 30000 t); auto. }
  destruct (p_requestInterval this) as [| | |i| | |] eqn:E2; try wrong E2.
  destruct (lt i (of_Z 500)) eqn:L2.
  { split; [|earlier]. exists i. split; [exact E2|].
    apply compare_outside. now left. }
  destruct (gt i (of_Z 5000)) eqn:G2.
  { split; [|earlier]. exists i. split; [exact E2|].
    apply compare_outside. now right. }
  assert (A2 : accepted semverValid FRequestInterval this).
  { apply (accepted_number FRequestInterval this 500 5000 i); auto. }
  destruct (p_name this) as [| | | |n| |] eqn:E3; try wrong E3.
  destruct (256 <? String.length n)%nat eqn:N1.
  { split; [|earlier]. exists n. split; [exact E3|].
    left. now apply Nat.ltb_lt. }
  destruct (includes (toLowerCase n) "bot") eqn:N2; simpl.
  2:{ split; [|earlier]. exists n. split; [exact E3|].
      right. rewrite mentionsBot_includes. congruence. }
  assert (A3 : accepted semverValid FName this).
  { split.
    - unfold wrongKind. simpl. rewrite E3. simpl. congruence.
    - intros [s [Es [Hs | Hs]]]; assert (s = n) by congruence; subst s.
      + apply Nat.ltb_lt in Hs. congruence.
      + apply Hs. now apply mentionsBot_includes. }
  destruct (p_version this) as [| | | |v| |] eqn:E4; try wrong E4.
  destruct (semverValid v) eqn:V1; simpl.
  2:{ split; [|earlier]. exists v. auto. }
  assert (A4 : accepted semverValid FVersion this).
  { split.
    - unfold wrongKind. simpl. rewrite E4. simpl. congruence.
    - intros [s [Es Hs]]. assert (s = v) by congruence. subst s.
      congruence. }
  destruct (p_contact this) as [| | | |c| |] eqn:E5; try wrong E5.
  destruct (256 <? String.length c)%nat eqn:C1.
  { split; [|earlier]. exists c. split; [exact E5|].
    now apply Nat.ltb_lt. }
  assert (A5 : accepted semverValid FContact this).
  { split.
    - unfold wrongKind. simpl. rewrite E5. simpl. congruence.
    - intros [s [Es Hs]]. assert (s = c) by congruence. subst s.
      apply Nat.ltb_lt in Hs. congruence. }
  split.
  - intros f. destruct f; assumption.
  - destruct this; simpl in *. congruence.
Qed.

(** At most one property is the first that is not accepted. *)
Lemma first_failure_unique (this : Properties) (f f' : Field) :
  ~ accepted semverValid f this ->
  (forall g, before g f -> accepted semverValid g this) ->
  ~ accepted semverValid f' this ->
  (forall g, before g f' -> accepted semverValid g this) ->
  f = f'.
Proof.
  intros Hf Bf Hf' Bf'.
  destruct (Nat.lt_trichotomy (position f) (position f')) as [H | [H | H]].
  - exfalso. apply Hf. now apply Bf'.
  - now apply position_inj.
  - exfalso. apply Hf'. now apply Bf.
Qed.

Lemma wrongKind_not_accepted (f : Field) (this : Properties) :
  wrongKind f this -> ~ accepted semverValid f this.
Proof. intros H [A _]. exact (A H). Qed.

Lemma violates_not_accepted (f : Field) (this : Properties) :
  violates semverValid f this -> ~ accepted semverValid f this.
Proof. intros H [_ A]. exact (A H). Qed.

End ValidateOptions.

(** Case analysis along the checks of [#validateOptions]. *)
Ltac along_checks :=
  repeat match goal with
         | H : context [match ?x with _ => _ end] |- _ =>
             destruct x eqn:?; try discriminate
         end.

Lemma validateOptions_bounds (semverValid : string -> bool)
      (this : Properties) (v : Validated) :
  validateOptions semverValid this = inr v ->
  (exists v', validateOptions semverValid
                (withRequestTimeout (VNumber (of_Z 500)) this) = inr v')
  /\ (exists v', validateOptions semverValid
                   (withRequestTimeout (VNumber (of_Z 30000)) this) = inr v')
  /\ validateOptions semverValid (withRequestTimeout (VNumber (of_Z 499)) this)
     = inl (RangeError FRequestTimeout)
  /\ validateOptions semverValid (withRequestTimeout (VNumber (of_Z 30001)) this)
     = inl (RangeError FRequestTimeout)
  /\ (exists v', validateOptions semverValid
                   (withRequestInterval (VNumber (of_Z 500)) this) = inr v')
  /\ (exists v', validateOptions semverValid
                   (withRequestInterval (VNumber (of_Z 5000)) this) = inr v')
  /\ validateOptions semverValid (withRequestInterval (VNumber (of_Z 499)) this)
     = inl (RangeError FRequestInterval)
  /\ validateOptions semverValid (withRequestInterval (VNumber (of_Z 5001)) this)
     = inl (RangeError FRequestInterval).
Proof.
  intros H. unfold validateOptions in H. along_checks.
  unfold validateOptions, withRequestTimeout, withRequestInterval.
  cbn [p_requestTimeout p_requestInterval p_name p_version p_contact].
  repeat match goal with
         | E : ?x = _ |- context [?x] => rewrite E
         end.
  repeat split; try reflexivity; eexists; reflexivity.
Qed.

(** [new Headers] of [#generateHeaders] refuses nothing but the
    User-Agent. *)
Lemma generateHeaders_eq (packageName packageVersion : string)
      (this : Validated) :
  generateHeaders packageName packageVersion this
  = if legalHeaderValue (formatUserAgent packageName packageVersion this)
    then inr (builtClient packageName packageVersion this)
    else inl HeaderTypeError.
Proof.
  unfold generateHeaders, builtClient.
  generalize (formatUserAgent packageName packageVersion this) as ua.
  intros ua. cbn [newHeaders].
  change (legalHeaderName "User-Agent") with true.
  change (legalHeaderName "Accept-Encoding") with true.
  change (legalHeaderName "Connection") with true.
  change (legalHeaderValue "gzip") with true.
  change (legalHeaderValue "keep-alive") with true.
  cbn [negb]. destruct (legalHeaderValue ua); reflexivity.
Qed.

Lemma construct_cases
      (packageName packageVersion packageRepository packageAuthorAddress
       : string) (semverValid : string -> bool) (o : HololiveWikiOptions) :
  construct packageName packageVersion packageRepository packageAuthorAddress
            semverValid o
  = match validateOptions semverValid
            (assignProperties packageName packageVersion packageRepository
                              packageAuthorAddress o) with
    | inl e => inl e
    | inr this =>
        if legalHeaderValue (formatUserAgent packageName packageVersion this)
        then inr (builtClient packageName packageVersion this)
        else inl HeaderTypeError
    end.
Proof.
  unfold construct. destruct (validateOptions _ _) as [e|this];
    [reflexivity | apply generateHeaders_eq].
Qed.

Lemma construct_inr
      (packageName packageVersion packageRepository packageAuthorAddress
       : string) (semverValid : string -> bool)
      (o : HololiveWikiOptions) (c : HololiveWiki) :
  construct packageName packageVersion packageRepository packageAuthorAddress
            semverValid o = inr c ->
  validateOptions semverValid
    (assignProperties packageName packageVersion packageRepository
                      packageAuthorAddress o) = inr (options c)
  /\ c = builtClient packageName packageVersion (options c)
  /\ legalHeaderValue (formatUserAgent packageName packageVersion (options c))
     = true.
Proof.
  rewrite construct_cases. intros H.
  destruct (validateOptions _ _) as [e|this]; [discriminate|].
  destruct (legalHeaderValue _) eqn:L; [|discriminate].
  injection H as <-. auto.
Qed.

Lemma validated_fields (semverValid : string -> bool) (this : Properties)
      (v : Validated) :
  validateOptions semverValid this = inr v ->
  p_name this = VString (name v)
  /\ p_version this = VString (version v)
  /\ p_contact this = VString (contact v).
Proof.
  intros H. pose proof (validateOptions_sound semverValid this) as S.
  rewrite H in S. destruct S as [_ S]. rewrite S. auto.
Qed.

(** The User-Agent does not depend on the timing options: where the
    constructor returns a client, it returns one for the same [userAgent]
    option whenever the validation passes. *)
Lemma construct_retimed
      (packageName packageVersion packageRepository packageAuthorAddress
       : string) (semverValid : string -> bool)
      (o o' : HololiveWikiOptions) (c : HololiveWiki) (v' : Validated) :
  construct packageName packageVersion packageRepository packageAuthorAddress
            semverValid o = inr c ->
  opt_userAgent o' = opt_userAgent o ->
  validateOptions semverValid
    (assignProperties packageName packageVersion packageRepository
                      packageAuthorAddress o') = inr v' ->
  construct packageName packageVersion packageRepository packageAuthorAddress
            semverValid o' = inr (builtClient packageName packageVersion v').
Proof.
  intros H U V'. apply construct_inr in H. destruct H as [V [_ L]].
  apply validated_fields in V.
  pose proof (validated_fields semverValid _ v' V') as F.
  unfold assignProperties in V, F. rewrite U in F.
  cbn [p_name p_version p_contact] in V, F.
  destruct V as [N [W K]]. destruct F as [N' [W' K']].
  rewrite N in N'. rewrite W in W'. rewrite K in K'.
  injection N' as N'. injection W' as W'. injection K' as K'.
  rewrite construct_cases, V'.
  assert (E : formatUserAgent packageName packageVersion v'
              = formatUserAgent packageName packageVersion (options c)).
  { unfold formatUserAgent. now rewrite N', W', K'. }
  now rewrite E, L.
Qed.

Lemma validateOptions_decided (semverValid : string -> bool)
      (this : Properties) :
  validateOptions semverValid this <> inl HeaderTypeError.
Proof.
  intros H. pose proof (validateOptions_sound semverValid this) as S.
  rewrite H in S. exact S.
Qed.

Lemma construct_thrown
      (packageName packageVersion packageRepository packageAuthorAddress
       : string) (semverValid : string -> bool) (o : HololiveWikiOptions)
      (e : Error) :
  validateOptions semverValid
    (assignProperties packageName packageVersion packageRepository
                      packageAuthorAddress o) = inl e ->
  construct packageName packageVersion packageRepository packageAuthorAddress
            semverValid o = inl e.
Proof. rewrite construct_cases. now intros ->. Qed.

(** The inclusive bounds, for the constructor as a whole. *)
Lemma construct_bounds
      (packageName packageVersion packageRepository packageAuthorAddress
       : string) (semverValid : string -> bool)
      (o : HololiveWikiOptions) (c : HololiveWiki) :
  construct packageName packageVersion packageRepository packageAuthorAddress
            semverValid o = inr c ->
  (exists c', construct packageName packageVersion packageRepository
                        packageAuthorAddress semverValid
                        (withTimeoutOption (VNumber (of_Z 500)) o) = inr c')
  /\ (exists c', construct packageName packageVersion packageRepository
                           packageAuthorAddress semverValid
                           (withTimeoutOption (VNumber (of_Z 30000)) o)
                 = inr c')
  /\ construct packageName packageVersion packageRepository
               packageAuthorAddress semverValid
               (withTimeoutOption (VNumber (of_Z 499)) o)
     = inl (RangeError FRequestTimeout)
  /\ construct packageName packageVersion packageRepository
               packageAuthorAddress semverValid
               (withTimeoutOption (VNumber (of_Z 30001)) o)
     = inl (RangeError FRequestTimeout)
  /\ (exists c', construct packageName packageVersion packageRepository
                           packageAuthorAddress semverValid
                           (withIntervalOption (VNumber (of_Z 500)) o)
                 = inr c')
  /\ (exists c', construct packageName packageVersion packageRepository
                           packageAuthorAddress semverValid
                           (withIntervalOption (VNumber (of_Z 5000)) o)
                 = inr c')
  /\ construct packageName packageVersion packageRepository
               packageAuthorAddress semverValid
               (withIntervalOption (VNumber (of_Z 499)) o)
     = inl (RangeError FRequestInterval)
  /\ construct packageName packageVersion packageRepository
               packageAuthorAddress semverValid
               (withIntervalOption (VNumber (of_Z 5001)) o)
     = inl (RangeError FRequestInterval).
Proof.
  intros H. pose proof H as H0. apply construct_inr in H0.
  destruct H0 as [V _].
  destruct (validateOptions_bounds semverValid _ _ V)
    as [[v1 B1] [[v2 B2] [B3 [B4 [[v5 B5] [[v6 B6] [B7 B8]]]]]]].
  split; [|split; [|split; [|split; [|split; [|split; [|split]]]]]].
  - eexists.
    exact (construct_retimed packageName packageVersion packageRepository
             packageAuthorAddress semverValid o (withTimeoutOption (VNumber (of_Z 500)) o)
             c v1 H eq_refl B1).
  - eexists.
    exact (construct_retimed packageName packageVersion packageRepository
             packageAuthorAddress semverValid o (withTimeoutOption (VNumber (of_Z 30000)) o)
             c v2 H eq_refl B2).
  - apply construct_thrown. exact B3.
  - apply construct_thrown. exact B4.
  - eexists.
    exact (construct_retimed packageName packageVersion packageRepository
             packageAuthorAddress semverValid o (withIntervalOption (VNumber (of_Z 500)) o)
             c v5 H eq_refl B5).
  - eexists.
    exact (construct_retimed packageName packageVersion packageRepository
             packageAuthorAddress semverValid o (withIntervalOption (VNumber (of_Z 5000)) o)
             c v6 H eq_refl B6).
  - apply construct_thrown. exact B7.
  - apply construct_thrown. exact B8.
Qed.

(** C8, as amended.  [#validateOptions] checks requestTimeout,
    requestInterval, name, version and contact in this order and throws for
    the first property that is not accepted: a TypeError of that property
    exactly when it has the wrong kind, a RangeError of that property
    exactly when it has the right kind and compares below its minimum or
    above its maximum (a number), is longer than 256 or lacks "bot" up to
    letter case (the name), is no valid semver (the version), is longer
    than 256 (the contact).  Validation passes exactly when every property
    is accepted; NaN compares with nothing and is accepted.  The
    constructor throws what the validation throws; when the validation
    passes it returns a client exactly when the User-Agent string is a
    legal header value, and otherwise throws the TypeError of
    [new Headers], with every property of the right kind.  The bounds are
    inclusive: where the constructor returns a client, it still does with
    requestTimeout 500 or 30000 and with requestInterval 500 or 5000, and
    it throws a RangeError with 499 or 30001, respectively 499 or 5001. *)
Theorem validateOptions_first_failure (semverValid : string -> bool)
        (this : Properties) :
  (forall f, validateOptions semverValid this = inl (TypeError f)
             <-> wrongKind f this
                 /\ forall g, before g f -> accepted semverValid g this)
  /\ (forall f, validateOptions semverValid this = inl (RangeError f)
                <-> violates semverValid f this
                    /\ forall g, before g f -> accepted semverValid g this)
  /\ ((exists v, validateOptions semverValid this = inr v)
      <-> forall f, accepted semverValid f this)
  /\ (forall v, validateOptions semverValid this = inr v ->
      (exists v', validateOptions semverValid
                    (withRequestTimeout (VNumber (of_Z 500)) this) = inr v')
      /\ (exists v', validateOptions semverValid
                       (withRequestTimeout (VNumber (of_Z 30000)) this) = inr v')
      /\ validateOptions semverValid
           (withRequestTimeout (VNumber (of_Z 499)) this)
         = inl (RangeError FRequestTimeout)
      /\ validateOptions semverValid
           (withRequestTimeout (VNumber (of_Z 30001)) this)
         = inl (RangeError FRequestTimeout)
      /\ (exists v', validateOptions semverValid
                       (withRequestInterval (VNumber (of_Z 500)) this) = inr v')
      /\ (exists v', validateOptions semverValid
                       (withRequestInterval (VNumber (of_Z 5000)) this) = inr v')
      /\ validateOptions semverValid
           (withRequestInterval (VNumber (of_Z 499)) this)
         = inl (RangeError FRequestInterval)
      /\ validateOptions semverValid
           (withRequestInterval (VNumber (of_Z 5001)) this)
         = inl (RangeError FRequestInterval))
  /\ forall packageName packageVersion packageRepository packageAuthorAddress
            (o : HololiveWikiOptions),
      assignProperties packageName packageVersion packageRepository
                       packageAuthorAddress o = this ->
      (forall f,
          construct packageName packageVersion packageRepository
                    packageAuthorAddress semverValid o = inl (TypeError f)
          <-> validateOptions semverValid this = inl (TypeError f))
      /\ (forall f,
             construct packageName packageVersion packageRepository
                       packageAuthorAddress semverValid o = inl (RangeError f)
             <-> validateOptions semverValid this = inl (RangeError f))
      /\ (construct packageName packageVersion packageRepository
                    packageAuthorAddress semverValid o = inl HeaderTypeError
          <-> exists v,
              validateOptions semverValid this = inr v
              /\ legalHeaderValue
                   (formatUserAgent packageName packageVersion v) = false)
      /\ ((exists c,
              construct packageName packageVersion packageRepository
                        packageAuthorAddress semverValid o = inr c)
          <-> exists v,
              validateOptions semverValid this = inr v
              /\ legalHeaderValue
                   (formatUserAgent packageName packageVersion v) = true)
      /\ forall c,
          construct packageName packageVersion packageRepository
                    packageAuthorAddress semverValid o = inr c ->
          (exists c', construct packageName packageVersion packageRepository
                                packageAuthorAddress semverValid
                                (withTimeoutOption (VNumber (of_Z 500)) o)
                      = inr c')
          /\ (exists c', construct packageName packageVersion
                                   packageRepository packageAuthorAddress
                                   semverValid
                                   (withTimeoutOption (VNumber (of_Z 30000)) o)
                         = inr c')
          /\ construct packageName packageVersion packageRepository
                       packageAuthorAddress semverValid
                       (withTimeoutOption (VNumber (of_Z 499)) o)
             = inl (RangeError FRequestTimeout)
          /\ construct packageName packageVersion packageRepository
                       packageAuthorAddress semverValid
                       (withTimeoutOption (VNumber (of_Z 30001)) o)
             = inl (RangeError FRequestTimeout)
          /\ (exists c', construct packageName packageVersion
                                   packageRepository packageAuthorAddress
                                   semverValid
                                   (withIntervalOption (VNumber (of_Z 500)) o)
                         = inr c')
          /\ (exists c', construct packageName packageVersion
                                   packageRepository packageAuthorAddress
                                   semverValid
                                   (withIntervalOption (VNumber (of_Z 5000)) o)
                         = inr c')
          /\ construct packageName packageVersion packageRepository
                       packageAuthorAddress semverValid
                       (withIntervalOption (VNumber (of_Z 499)) o)
             = inl (RangeError FRequestInterval)
          /\ construct packageName packageVersion packageRepository
                       packageAuthorAddress semverValid
                       (withIntervalOption (VNumber (of_Z 5001)) o)
             = inl (RangeError FRequestInterval).
Proof.
  pose proof (validateOptions_sound semverValid this) as S.
  split; [|split; [|split; [|split]]].
  - intros f. split.
    + intros H. rewrite H in S. exact S.
    + intros [W B].
      destruct (validateOptions semverValid this) as [[f'|f'|]|v].
      * destruct S as [W' B'].
        assert (f = f') as <-; [|reflexivity].
        apply (first_failure_unique semverValid this);
          auto using wrongKind_not_accepted.
      * destruct S as [V' B'].
        assert (f = f') as <-.
        { apply (first_failure_unique semverValid this);
            auto using wrongKind_not_accepted, violates_not_accepted. }
        exfalso. exact (violates_right_kind semverValid f this V' W).
      * destruct S.
      * destruct S as [A _]. exfalso. destruct (A f) as [A1 _]. exact (A1 W).
  - intros f. split.
    + intros H. rewrite H in S. exact S.
    + intros [V B].
      destruct (validateOptions semverValid this) as [[f'|f'|]|v].
      * destruct S as [W' B'].
        assert (f = f') as <-.
        { apply (first_failure_unique semverValid this);
            auto using wrongKind_not_accepted, violates_not_accepted. }
        exfalso. exact (violates_right_kind semverValid f this V W').
      * destruct S as [V' B'].
        assert (f = f') as <-; [|reflexivity].
        apply (first_failure_unique semverValid this);
          auto using violates_not_accepted.
      * destruct S.
      * destruct S as [A _]. exfalso. destruct (A f) as [_ A2]. exact (A2 V).
  - split.
    + intros [v H]. rewrite H in S. apply S.
    + intros A.
      destruct (validateOptions semverValid this) as [[f'|f'|]|v].
      * destruct S as [W' _]. exfalso. destruct (A f') as [A1 _].
        exact (A1 W').
      * destruct S as [V' _]. exfalso. destruct (A f') as [_ A2].
        exact (A2 V').
      * destruct S.
      * eauto.
  - intros v H. exact (validateOptions_bounds semverValid this v H).
  - clear S. intros pn pv pr pa o <-.
    split; [|split; [|split; [|split]]].
    + intros f. rewrite construct_cases.
      destruct (validateOptions _ _) as [e|v];
        [split; intros H; injection H as ->; reflexivity|].
      destruct (legalHeaderValue _); split; discriminate.
    + intros f. rewrite construct_cases.
      destruct (validateOptions _ _) as [e|v];
        [split; intros H; injection H as ->; reflexivity|].
      destruct (legalHeaderValue _); split; discriminate.
    + rewrite construct_cases.
      destruct (validateOptions _ _) as [e|v] eqn:E.
      * split; [|intros [v [H _]]; discriminate].
        intros H. injection H as ->.
        exfalso. exact (validateOptions_decided _ _ E).
      * destruct (legalHeaderValue _) eqn:L.
        -- split; [discriminate|]. intros [v' [H L']].
           injection H as <-. congruence.
        -- split; [eauto|reflexivity].
    + rewrite construct_cases.
      destruct (validateOptions _ _) as [e|v] eqn:E.
      * split; [intros [c H]; discriminate | intros [v [H _]]; discriminate].
      * destruct (legalHeaderValue _) eqn:L.
        -- split; eauto.
        -- split; [intros [c H]; discriminate|]. intros [v' [H L']].
           injection H as <-. congruence.
    + intros c H. exact (construct_bounds pn pv pr pa semverValid o c H).
Qed.

Lemma validateOptions_first_failure_witness :
  (exists v', validateOptions plainSemver
                (withRequestTimeout (VNumber (of_Z 500)) sampleProperties)
              = inr v')
  /\ validateOptions plainSemver
       (withRequestInterval (VNumber (of_Z 5001)) sampleProperties)
     = inl (RangeError FRequestInterval)
  /\ (exists c,
         construct "hololive-wiki" "0.1.0" "That-Guy977/hololive-wiki"
                   "maintainer@example.com" plainSemver
                   (withTimeoutOption (VNumber (of_Z 30000)) sampleOptions)
         = inr c).
Proof.
  destruct (validateOptions_first_failure plainSemver sampleProperties)
    as [_ [_ [_ [B C]]]].
  destruct (B _ eq_refl) as [B1 [_ [_ [_ [_ [_ [_ B8]]]]]]].
  destruct (C "hololive-wiki" "0.1.0" "That-Guy977/hololive-wiki"
              "maintainer@example.com" sampleOptions eq_refl)
    as [_ [_ [_ [_ D]]]].
  destruct (D _ eq_refl) as [_ [D2 _]].
  split; [exact B1 | split; [exact B8 | exact D2]].
Defined.

(** A contact with a line feed in it passes the validation, and the
    constructor throws all the same. *)
Example newline_contact_refused :
  construct "hololive-wiki" "0.1.0" "That-Guy977/hololive-wiki"
            "maintainer@example.com" plainSemver
            {| opt_requestTimeout := VUndefined;
               opt_requestInterval := VUndefined;
               opt_userAgent :=
                 Some {| ua_name := VString "abot";
                         ua_version := VString "1.0.0";
                         ua_contact :=
                           VString ("a" ++ String (ascii_of_nat 10) "b") |} |}
  = inl HeaderTypeError.
Proof. reflexivity. Qed.

(** C8 as stated fails: a property of the wrong kind does not make the
    constructor throw a TypeError when an earlier check throws first. *)
Lemma type_error_not_exactly_wrong_kind :
  ~ (forall this : Properties,
        (exists f, validateOptions plainSemver this = inl (TypeError f))
        <-> (exists f, wrongKind f this)).
Proof.
  intros H.
  destruct (H (withRequestTimeout (VNumber (of_Z 499))
                 {| p_requestTimeout := VUndefined;
                    p_requestInterval := VNumber (of_Z 1000);
                    p_name := VNumber (of_Z 5);
                    p_version := VString "1.0.0";
                    p_contact := VString EmptyString |})) as [_ B].
  destruct B as [f Hf].
  - exists FName. unfold wrongKind. simpl. discriminate.
  - discriminate Hf.
Qed.

(** ** Properties of the constructor *)

(** C7, as amended.  The constructor stores in [this.contact]: for an array
    of strings, its elements joined with "; "; for a string that is an
    opening parenthesis, a non-empty text without line terminator and a
    closing parenthesis, that text, the outer pair taken off once; for
    [null], the empty string.  An absent contact is stored as [undefined],
    and the constructor then does not return a client. *)
Theorem normalizeContact_cases (ss : list string) (t : string) :
  t <> EmptyString -> noLineTerminator t = true ->
  normalizeContact (VArray (map VString ss)) = VString (String.concat "; " ss)
  /\ normalizeContact (VString ("(" ++ t ++ ")")) = VString t
  /\ normalizeContact VNull = VString EmptyString
  /\ normalizeContact VUndefined = VUndefined
  /\ forall packageName packageVersion packageRepository packageAuthorAddress
            semverValid o ua c,
      opt_userAgent o = Some ua -> ua_contact ua = VUndefined ->
      construct packageName packageVersion packageRepository
                packageAuthorAddress semverValid o <> inr c.
Proof.
  intros Hne Hlt. repeat split.
  - simpl. now rewrite everyString_strings.
  - unfold normalizeContact. now rewrite replaceOuterParens_wrapped.
  - intros pn pv pr pa sv o ua c Ho Hc H.
    apply construct_inr in H. destruct H as [H _].
    pose proof (validateOptions_sound sv (assignProperties pn pv pr pa o)) as S.
    rewrite H in S. destruct S as [_ S].
    apply (f_equal p_contact) in S. simpl in S.
    rewrite Ho, Hc in S. discriminate S.
Qed.

Lemma normalizeContact_cases_witness :
  normalizeContact (VArray (map VString ["https://example.com"; "a@example.com"]))
  = VString "https://example.com; a@example.com"
  /\ normalizeContact (VString "(123-4567)") = VString "123-4567".
Proof.
  destruct (normalizeContact_cases ["https://example.com"; "a@example.com"]
              "123-4567") as [A [B _]].
  - discriminate.
  - reflexivity.
  - split; [exact A | exact B].
Defined.

(** C7 as stated fails: an absent contact is not normalised to the empty
    string, and the pair "()" around nothing is not taken off. *)
Lemma absent_contact_not_empty :
  normalizeContact VUndefined <> VString EmptyString
  /\ normalizeContact (VString "()") <> VString EmptyString.
Proof. split; discriminate. Qed.

Lemma append_assoc (a b c : string) : (a ++ b) ++ c = a ++ b ++ c.
Proof.
  induction a as [|x a IH]; simpl; [reflexivity | now rewrite IH].
Qed.

Lemma length_zero (s : string) :
  (String.length s =? 0)%nat = true <-> s = EmptyString.
Proof.
  destruct s; simpl; split; intros H; try reflexivity; discriminate.
Qed.

(** C9.  For a configuration with which the constructor returns a client,
    the User-Agent string is "{name}/{version} ({contact}) {host}" for the
    given name and version and the normalised contact, where host is the
    library's own "{name}/{version}"; when the normalised contact is empty
    the parenthesised segment and its space are left out.  With name
    "abot", version "1.0.0" and contact null it is "abot/1.0.0 {host}". *)
Theorem userAgent_format
        (packageName packageVersion packageRepository packageAuthorAddress
         : string) (semverValid : string -> bool)
        (o : HololiveWikiOptions) (c : HololiveWiki) :
  construct packageName packageVersion packageRepository packageAuthorAddress
            semverValid o = inr c ->
  ua_name (chosenUserAgent packageName packageVersion packageRepository
                           packageAuthorAddress o)
  = VString (name (options c))
  /\ ua_version (chosenUserAgent packageName packageVersion packageRepository
                                 packageAuthorAddress o)
     = VString (version (options c))
  /\ normalizeContact
       (ua_contact (chosenUserAgent packageName packageVersion
                                    packageRepository packageAuthorAddress o))
     = VString (contact (options c))
  /\ (contact (options c) = EmptyString ->
      userAgent c
      = name (options c) ++ "/" ++ version (options c) ++ " "
          ++ packageName ++ "/" ++ packageVersion)
  /\ (contact (options c) <> EmptyString ->
      userAgent c
      = name (options c) ++ "/" ++ version (options c)
          ++ " (" ++ contact (options c) ++ ") "
          ++ packageName ++ "/" ++ packageVersion)
  /\ (opt_userAgent o = Some {| ua_name := VString "abot";
                                ua_version := VString "1.0.0";
                                ua_contact := VNull |} ->
      userAgent c = "abot/1.0.0 " ++ packageName ++ "/" ++ packageVersion).
Proof.
  intros H. apply construct_inr in H. destruct H as [V [G _]].
  pose proof (validateOptions_sound semverValid
                (assignProperties packageName packageVersion
                                  packageRepository packageAuthorAddress o))
    as S.
  rewrite V in S. destruct S as [_ S].
  assert (N : p_name (assignProperties packageName packageVersion
                        packageRepository packageAuthorAddress o)
              = VString (name (options c))) by (rewrite S; reflexivity).
  assert (W : p_version (assignProperties packageName packageVersion
                           packageRepository packageAuthorAddress o)
              = VString (version (options c))) by (rewrite S; reflexivity).
  assert (K : p_contact (assignProperties packageName packageVersion
                           packageRepository packageAuthorAddress o)
              = VString (contact (options c))) by (rewrite S; reflexivity).
  clear S. unfold assignProperties in N, W, K. simpl in N, W, K.
  fold (chosenUserAgent packageName packageVersion packageRepository
                        packageAuthorAddress o) in N, W, K.
  assert (U : userAgent c
              = formatUserAgent packageName packageVersion (options c))
    by (rewrite G; reflexivity).
  unfold formatUserAgent in U.
  repeat split; try assumption.
  - intros E. rewrite U, E. reflexivity.
  - intros E. rewrite U.
    destruct (String.length (contact (options c)) =? 0)%nat eqn:L.
    + apply length_zero in L. contradiction.
    + rewrite !append_assoc. reflexivity.
  - intros E. unfold chosenUserAgent in N, W, K. rewrite E in N, W, K.
    simpl in N, W, K.
    injection N as N. injection W as W. injection K as K.
    rewrite U, <- N, <- W, <- K. reflexivity.
Qed.

Lemma userAgent_format_witness :
  exists c,
    construct "hololive-wiki" "0.1.0" "That-Guy977/hololive-wiki"
              "maintainer@example.com" plainSemver sampleOptions = inr c
    /\ userAgent c = "abot/1.0.0 hololive-wiki/0.1.0".
Proof.
  eexists. split.
  - reflexivity.
  - apply (userAgent_format "hololive-wiki" "0.1.0"
             "That-Guy977/hololive-wiki" "maintainer@example.com"
             plainSemver sampleOptions); reflexivity.
Defined.

(** A contact that is not empty appears between parentheses. *)
Example userAgent_with_contact :
  forall c,
    construct "hololive-wiki" "0.1.0" "That-Guy977/hololive-wiki"
              "maintainer@example.com" plainSemver
              {| opt_requestTimeout := VUndefined;
                 opt_requestInterval := VUndefined;
                 opt_userAgent :=
                   Some {| ua_name := VString "My Bot";
                           ua_version := VString "2.3.4";
                           ua_contact := VArray [VString "https://example.com";
                                                 VString "a@example.com"] |} |}
    = inr c ->
    userAgent c
    = "My Bot/2.3.4 (https://example.com; a@example.com) hololive-wiki/0.1.0".
Proof. intros c H. injection H as <-. reflexivity. Qed.

(** The errors of the constructor on some arguments: a name without
    "bot", a name that has it in capitals, a version that is no semver, a
    [userAgent] without contact, a contact array with a number in it, a
    timing option of the wrong kind. *)
Example construct_errors :
  let new name version contact :=
    construct "hololive-wiki" "0.1.0" "That-Guy977/hololive-wiki"
              "maintainer@example.com" plainSemver
              {| opt_requestTimeout := VUndefined;
                 opt_requestInterval := VNull;
                 opt_userAgent := Some {| ua_name := name;
                                          ua_version := version;
                                          ua_contact := contact |} |} in
  new (VString "client") (VString "1.0.0") VNull = inl (RangeError FName)
  /\ (exists c, new (VString "My BOT") (VString "1.0.0") VNull = inr c)
  /\ new (VString "abot") (VString "one") VNull = inl (RangeError FVersion)
  /\ new (VString "abot") (VString "1.0.0") VUndefined
     = inl (TypeError FContact)
  /\ new (VString "abot") (VString "1.0.0")
         (VArray [VString "a"; VNumber (of_Z 1)])
     = inl (TypeError FContact)
  /\ construct "hololive-wiki" "0.1.0" "That-Guy977/hololive-wiki"
               "maintainer@example.com" plainSemver
               (withTimeoutOption (VString "1000") sampleOptions)
     = inl (TypeError FRequestTimeout).
Proof. repeat split. eexists. reflexivity. Qed.

Lemma validateOptions_NaN (semverValid : string -> bool)
      (this : Properties) (v : Validated) :
  validateOptions semverValid this = inr v ->
  validateOptions semverValid (withRequestTimeout (VNumber NaN) this)
  = inr {| requestTimeout := NaN; requestInterval := requestInterval v;
           name := name v; version := version v; contact := contact v |}
  /\ validateOptions semverValid (withRequestInterval (VNumber NaN) this)
     = inr {| requestTimeout := requestTimeout v; requestInterval := NaN;
              name := name v; version := version v; contact := contact v |}.
Proof.
  intros H. unfold validateOptions in H. along_checks.
  injection H as <-.
  unfold validateOptions, withRequestTimeout, withRequestInterval.
  cbn [p_requestTimeout p_requestInterval p_name p_version p_contact].
  repeat match goal with
         | E : ?x = _ |- context [?x] => rewrite E
         end.
  split; reflexivity.
Qed.

(** C10.  Where the constructor returns a client, it also does with
    requestTimeout NaN, and with requestInterval NaN: NaN is a number and
    compares neither below the minimum nor above the maximum, and the
    client keeps NaN as its timing value. *)
Theorem NaN_timing_accepted
        (packageName packageVersion packageRepository packageAuthorAddress
         : string) (semverValid : string -> bool)
        (o : HololiveWikiOptions) (c : HololiveWiki) :
  construct packageName packageVersion packageRepository packageAuthorAddress
            semverValid o = inr c ->
  (exists c',
      construct packageName packageVersion packageRepository
                packageAuthorAddress semverValid
                (withTimeoutOption (VNumber NaN) o) = inr c'
      /\ requestTimeout (options c') = NaN)
  /\ (exists c',
         construct packageName packageVersion packageRepository
                   packageAuthorAddress semverValid
                   (withIntervalOption (VNumber NaN) o) = inr c'
         /\ requestInterval (options c') = NaN).
Proof.
  intros H. pose proof H as H0. apply construct_inr in H0.
  destruct H0 as [V _].
  destruct (validateOptions_NaN semverValid _ _ V) as [T I].
  split; eexists; split.
  - exact (construct_retimed packageName packageVersion packageRepository
             packageAuthorAddress semverValid o
             (withTimeoutOption (VNumber NaN) o) c _ H eq_refl T).
  - reflexivity.
  - exact (construct_retimed packageName packageVersion packageRepository
             packageAuthorAddress semverValid o
             (withIntervalOption (VNumber NaN) o) c _ H eq_refl I).
  - reflexivity.
Qed.

Lemma NaN_timing_accepted_witness :
  exists c,
    construct "hololive-wiki" "0.1.0" "That-Guy977/hololive-wiki"
              "maintainer@example.com" plainSemver
              (withTimeoutOption (VNumber NaN) sampleOptions) = inr c
    /\ requestTimeout (options c) = NaN.
Proof.
  destruct (NaN_timing_accepted "hololive-wiki" "0.1.0"
              "That-Guy977/hololive-wiki" "maintainer@example.com"
              plainSemver sampleOptions _ eq_refl) as [A _].
  exact A.
Defined.

(** ** Properties of the request manager *)

Section RequestFacts.

Variable RequestData : Type.
Variables requestTimeout requestInterval : Z.
Variable headers : list (string * string).

Local Abbreviation World := (World RequestData).
Local Abbreviation step' := (step requestTimeout requestInterval headers).
Local Abbreviation run' := (run requestTimeout requestInterval headers).

Lemma filter_filter_comm {A : Type} (p q : A -> bool) (l : list A) :
  filter p (filter q l) = filter q (filter p l).
Proof.
  induction l as [|x l IH]; simpl; [reflexivity|].
  destruct (q x) eqn:Q, (p x) eqn:P; simpl; rewrite ?Q, ?P, IH; reflexivity.
Qed.

Lemma filter_length_le {A : Type} (p : A -> bool) (l : list A) :
  (length (filter p l) <= length l)%nat.
Proof.
  induction l as [|x l IH]; simpl; [lia|].
  destruct (p x); simpl; lia.
Qed.

Lemma dispatchTimers_clearTimeout (id : TimerId) (w : World) :
  dispatchTimers (clearTimeout id w)
  = filter (fun t => negb (timerId t =? id)%nat) (dispatchTimers w).
Proof.
  unfold dispatchTimers, clearTimeout. simpl. apply filter_filter_comm.
Qed.

(** A callback run by the runtime has the timer as its receiver, which
    neither method accepts. *)
Lemma invoke_on_timer (cb : Callback) (id : TimerId) (now : Z) (w : World) :
  invoke requestTimeout requestInterval headers cb (ThisTimer id) now w
  = Throw (match cb with
           | SendRequestsMethod => PrivateMemberTypeError
           | AbortMethod => InvalidThisTypeError
           end) w.
Proof. destruct cb; reflexivity. Qed.

Lemma runTimer_world (id : TimerId) (now : Z) (w : World) (c : Completion RequestData) :
  runTimer requestTimeout requestInterval headers id now w = Some c ->
  worldOf c = clearTimeout id w.
Proof.
  unfold runTimer. destruct (findTimer id w) as [t|]; [|discriminate].
  destruct (due t <=? now)%Z; [|discriminate].
  rewrite invoke_on_timer. intros H. injection H as <-. reflexivity.
Qed.

(** The world after a timer event. *)
Lemma step_TimerRuns (id : TimerId) (now : Z) (w : World) :
  step' now (TimerRuns id) w = w
  \/ step' now (TimerRuns id) w = clearTimeout id w.
Proof.
  simpl.
  destruct (runTimer requestTimeout requestInterval headers id now w)
    as [c|] eqn:R; [right | left; reflexivity].
  exact (runTimer_world id now w c R).
Qed.

(** The world after a promise settles. *)
Lemma step_Settles (c : ControllerId) (fulfilled : bool) (now : Z) (w : World) :
  step' now (Settles c fulfilled) w = w
  \/ exists k w1,
      findCall c w = Some k
      /\ requestManager w1 = requestManager w
      /\ timers w1 = timers w
      /\ step' now (Settles c fulfilled) w = clearTimeout (guard k) w1.
Proof.
  simpl. unfold settle.
  destruct (findCall c w) as [k|]; [right | left; reflexivity].
  exists k.
  exists {| requestManager := requestManager w; timers := timers w;
            inFlight := filter (fun k' => negb (signal (request k') =? c)%nat)
                               (inFlight w);
            aborted := aborted w; sent := sent w;
            nextTimer := nextTimer w;
            nextController := nextController w |}.
  repeat split.
Qed.

(** [#setRequest] with a handle in place: the queue grows and nothing
    else changes. *)
Lemma setRequest_armed (w : World) (id : TimerId) (data : RequestData)
      (now : Z) :
  timeout (requestManager w) = Some id ->
  setRequest requestInterval ThisClient data now w
  = Normal (withManager {| queue := queue (requestManager w) ++ [data];
                           nextReq := nextReq (requestManager w);
                           timeout := Some id |} w).
Proof. intros T. unfold setRequest. simpl. rewrite T. reflexivity. Qed.

(** [#setRequest] with no handle: the queue grows, a timer for
    [#sendRequests] is armed and its handle stored. *)
Lemma setRequest_idle (w : World) (data : RequestData) (now : Z) :
  timeout (requestManager w) = None ->
  setRequest requestInterval ThisClient data now w
  = Normal
      {| requestManager :=
           {| queue := queue (requestManager w) ++ [data];
              nextReq := nextReq (requestManager w);
              timeout := Some (nextTimer w) |};
         timers :=
           timers w
           ++ [{| timerId := nextTimer w;
                  callback := SendRequestsMethod;
                  delay := requestDelay requestInterval (requestManager w) now;
                  armedAt := now |}];
         inFlight := inFlight w; aborted := aborted w; sent := sent w;
         nextTimer := S (nextTimer w);
         nextController := nextController w |}.
Proof. intros T. unfold setRequest. simpl. rewrite T. reflexivity. Qed.

Lemma singleFlight_clearTimeout (id : TimerId) (w w1 : World) :
  requestManager w1 = requestManager w -> timers w1 = timers w ->
  singleFlight w -> singleFlight (clearTimeout id w1).
Proof.
  intros M T [H0 H1]. unfold singleFlight.
  rewrite dispatchTimers_clearTimeout.
  assert (D : dispatchTimers w1 = dispatchTimers w)
    by (unfold dispatchTimers; now rewrite T).
  rewrite D. simpl. rewrite M. split.
  - intros N. now rewrite (H0 N).
  - etransitivity; [apply filter_length_le | exact H1].
Qed.

Lemma singleFlight_step (now : Z) (e : Event RequestData) (w : World) :
  singleFlight w -> singleFlight (step' now e w).
Proof.
  intros [H0 H1]. destruct e as [data| |id|c fulfilled].
  - cbn [step]. destruct (timeout (requestManager w)) as [id|] eqn:T.
    + rewrite (setRequest_armed w id data now T).
      split; [discriminate | exact H1].
    + rewrite (setRequest_idle w data now T).
      unfold singleFlight, dispatchTimers in *. simpl.
      rewrite filter_app, (H0 eq_refl). simpl. split; [discriminate | lia].
  - unfold singleFlight, dispatchTimers in *. simpl.
    rewrite filter_app. simpl. rewrite app_nil_r. auto.
  - destruct (step_TimerRuns id now w) as [-> | ->]; [split; assumption|].
    apply (singleFlight_clearTimeout id w w); auto. split; assumption.
  - destruct (step_Settles c fulfilled now w) as [-> | [k [w1 [_ [M [T ->]]]]]];
      [split; assumption|].
    apply (singleFlight_clearTimeout (guard k) w w1); auto. split; assumption.
Qed.

Lemma singleFlight_run (trace : list (Z * Event RequestData)) (w : World) :
  singleFlight w -> singleFlight (run' trace w).
Proof.
  revert w. induction trace as [|[now e] trace IH]; intros w H; simpl.
  - exact H.
  - apply IH. now apply singleFlight_step.
Qed.

Lemma singleFlight_initial : singleFlight (@initial RequestData).
Proof. split; simpl; auto. Qed.

(** No event takes a handle out of [#requestManager.timeout]. *)
Lemma timeout_kept_step (now : Z) (e : Event RequestData) (w : World)
      (id : TimerId) :
  timeout (requestManager w) = Some id ->
  timeout (requestManager (step' now e w)) = Some id.
Proof.
  intros T. destruct e as [data| |t|c fulfilled].
  - cbn [step]. rewrite (setRequest_armed w id data now T). reflexivity.
  - simpl. exact T.
  - destruct (step_TimerRuns t now w) as [-> | ->]; exact T.
  - destruct (step_Settles c fulfilled now w)
      as [-> | [k [w1 [_ [M [_ ->]]]]]]; [exact T|].
    simpl. rewrite M. exact T.
Qed.

Lemma timeout_kept_run (trace : list (Z * Event RequestData)) (w : World)
      (id : TimerId) :
  timeout (requestManager w) = Some id ->
  timeout (requestManager (run' trace w)) = Some id.
Proof.
  revert w. induction trace as [|[now e] trace IH]; intros w T; simpl.
  - exact T.
  - apply IH. now apply timeout_kept_step.
Qed.

(** Called on the client, [#sendRequests] first moves the watermark to
    [now + requestInterval], then arms the abort timer for
    [requestTimeout] and makes one [fetch] call. *)
Lemma sendRequests_on_client (now : Z) (w : World) :
  sendRequests requestTimeout requestInterval headers ThisClient now w
  = Normal
      {| requestManager :=
           {| queue := queue (requestManager w);
              nextReq := (now + requestInterval)%Z;
              timeout := timeout (requestManager w) |};
         timers :=
           timers w ++ [{| timerId := nextTimer w; callback := AbortMethod;
                           delay := requestTimeout; armedAt := now |}];
         inFlight :=
           inFlight w ++ [{| request := apiRequest headers (nextController w);
                             guard := nextTimer w |}];
         aborted := aborted w;
         sent := sent w ++ [apiRequest headers (nextController w)];
         nextTimer := S (nextTimer w);
         nextController := S (nextController w) |}.
Proof. reflexivity. Qed.

(** The timer a [finally] callback clears is no longer armed. *)
Lemma clearTimeout_disarms (id : TimerId) (w : World) :
  findTimer id (clearTimeout id w) = None.
Proof.
  unfold findTimer, clearTimeout. simpl.
  induction (timers w) as [|t ts IH]; simpl; [reflexivity|].
  destruct (timerId t =? id)%nat eqn:E; simpl; [exact IH|].
  rewrite E. exact IH.
Qed.

(** When a [fetch] promise settles, fulfilled or rejected, the abort
    timer of that call is disarmed. *)
Lemma settle_disarms (c : ControllerId) (fulfilled : bool) (w w' : World)
      (k : Call) :
  findCall c w = Some k -> settle c fulfilled w = Some w' ->
  findTimer (guard k) w' = None.
Proof.
  unfold settle. intros F H. rewrite F in H. injection H as <-.
  apply clearTimeout_disarms.
Qed.

(** The timer armed by [#setRequest] does not run before the watermark,
    as long as the watermark is not further away than the longest delay
    a timer can have. *)
Lemma requestDelay_reaches_watermark (m : RequestManager RequestData)
      (now : Z) :
  (0 <= requestInterval)%Z -> (nextReq m - now <= 2147483647)%Z ->
  (nextReq m <= now + effectiveDelay (requestDelay requestInterval m now))%Z.
Proof.
  intros I F. unfold requestDelay, isBefore, effectiveDelay.
  destruct (nextReq m <? now)%Z eqn:B.
  - apply Z.ltb_lt in B.
    destruct ((requestInterval <? 1) || (2147483647 <? requestInterval))%Z;
      lia.
  - apply Z.ltb_ge in B.
    destruct ((nextReq m - now <? 1) || (2147483647 <? nextReq m - now))%Z
      eqn:E; [|lia].
    apply orb_true_iff in E. destruct E as [E | E]; apply Z.ltb_lt in E; lia.
Qed.

End RequestFacts.

(** ** The claims about the request manager *)

(** C2.  Along every sequence of events of a client, at most one timer
    that will call [#sendRequests] is armed at any moment; and a
    [#setRequest] that finds a handle in [#requestManager.timeout] appends
    its descriptor to the queue, arms no timer and keeps the handle. *)
Theorem single_dispatch_timer
        (RequestData : Type) (requestTimeout requestInterval : Z)
        (headers : list (string * string))
        (trace : list (Z * Event RequestData))
        (w : World RequestData) (id : TimerId) (data : RequestData) (now : Z) :
  timeout (requestManager w) = Some id ->
  (length (dispatchTimers
             (run requestTimeout requestInterval headers trace initial)) <= 1)%nat
  /\ timers (worldOf (setRequest requestInterval ThisClient data now w))
     = timers w
  /\ queue (requestManager
              (worldOf (setRequest requestInterval ThisClient data now w)))
     = (queue (requestManager w) ++ [data])%list
  /\ timeout (requestManager
                (worldOf (setRequest requestInterval ThisClient data now w)))
     = Some id.
Proof.
  intros T. split.
  - apply singleFlight_run, singleFlight_initial.
  - rewrite (setRequest_armed RequestData requestInterval w id data now T).
    repeat split.
Qed.

Lemma single_dispatch_timer_witness :
  (length (dispatchTimers
             (run 10000 1000 sampleHeaders
                  [(100, CallSetRequest 1%nat); (200, CallSetRequest 2%nat)]%Z
                  initial)) <= 1)%nat
  /\ timers (worldOf (setRequest 1000 ThisClient 2%nat 200
                        (worldOf (setRequest 1000 ThisClient 1%nat 100 initial))))
     = timers (worldOf (setRequest 1000 ThisClient 1%nat 100 initial)).
Proof.
  destruct (single_dispatch_timer nat 10000 1000 sampleHeaders
              [(100, CallSetRequest 1%nat); (200, CallSetRequest 2%nat)]%Z
              (worldOf (setRequest 1000 ThisClient 1%nat 100 initial))
              1%nat 2%nat 200%Z eq_refl) as [A [B _]].
  split; [exact A | exact B].
Defined.

(** C1, which the code does not meet.  Once [#setRequest] has stored a
    handle in [#requestManager.timeout], no event takes it out again: not
    the timer running, not [#sendRequests], not the [fetch] promise
    settling.  Every later [#setRequest] therefore only appends to the
    queue and arms no timer. *)
Theorem timeout_never_released
        (RequestData : Type) (requestTimeout requestInterval : Z)
        (headers : list (string * string))
        (trace : list (Z * Event RequestData))
        (w : World RequestData) (id : TimerId) (data : RequestData) (now : Z) :
  timeout (requestManager w) = Some id ->
  timeout (requestManager
             (run requestTimeout requestInterval headers trace w)) = Some id
  /\ timers (step requestTimeout requestInterval headers now
                  (CallSetRequest data)
                  (run requestTimeout requestInterval headers trace w))
     = timers (run requestTimeout requestInterval headers trace w).
Proof.
  intros T.
  pose proof (timeout_kept_run RequestData requestTimeout requestInterval
                headers trace w id T) as K.
  split; [exact K|].
  cbn [step]. rewrite (setRequest_armed RequestData requestInterval _ id data now K).
  reflexivity.
Qed.

Lemma timeout_never_released_witness :
  let w := worldOf (setRequest 1000 ThisClient 1%nat 100 initial) in
  let trace := [(1100, TimerRuns 1%nat); (1100, CallSendRequests);
                (1300, Settles 1%nat true)]%Z in
  timeout (requestManager (run 10000 1000 sampleHeaders trace w)) = Some 1%nat
  /\ timers (step 10000 1000 sampleHeaders 5000 (CallSetRequest 2%nat)
                  (run 10000 1000 sampleHeaders trace w))
     = timers (run 10000 1000 sampleHeaders trace w).
Proof.
  exact (timeout_never_released nat 10000 1000 sampleHeaders
           [(1100, TimerRuns 1%nat); (1100, CallSendRequests);
            (1300, Settles 1%nat true)]%Z
           (worldOf (setRequest 1000 ThisClient 1%nat 100 initial))
           1%nat 2%nat 5000%Z eq_refl).
Defined.

(** The run behind C1: a request at 100 ms arms timer 1; the timer runs at
    1100 ms; [#sendRequests] runs on the client and its call settles at
    1300 ms; a request at 5000 ms then joins the queue, the handle is
    still timer 1, and no timer is armed. *)
Example wedged_after_first_dispatch :
  let w := run 10000 1000 sampleHeaders
               [(100, CallSetRequest 1%nat); (1100, TimerRuns 1%nat);
                (1100, CallSendRequests); (1300, Settles 1%nat true);
                (5000, CallSetRequest 2%nat)]%Z initial in
  timeout (requestManager w) = Some 1%nat
  /\ timers w = []
  /\ inFlight w = []
  /\ queue (requestManager w) = [1%nat; 2%nat].
Proof. repeat split. Qed.

(** C3, which the code does not meet.  The callback of the dispatch timer
    is the method [#sendRequests] on its own; the runtime calls it with the
    timer as receiver, the read of [this.#requestManager] throws a
    TypeError, and neither is the watermark moved nor a call made. *)
Theorem dispatch_timer_throws
        (RequestData : Type) (requestTimeout requestInterval : Z)
        (headers : list (string * string))
        (w : World RequestData) (id : TimerId) (t : Timer) (now : Z) :
  findTimer id w = Some t ->
  callback t = SendRequestsMethod ->
  (due t <= now)%Z ->
  exists w',
    runTimer requestTimeout requestInterval headers id now w
    = Some (Throw PrivateMemberTypeError w')
    /\ nextReq (requestManager w') = nextReq (requestManager w)
    /\ sent w' = sent w
    /\ inFlight w' = inFlight w.
Proof.
  intros F C D. exists (clearTimeout id w).
  unfold runTimer. rewrite F.
  apply Z.leb_le in D. rewrite D, C. repeat split.
Qed.

Lemma dispatch_timer_throws_witness :
  exists w',
    runTimer 10000 1000 sampleHeaders 1%nat 1100
             (worldOf (setRequest 1000 ThisClient 7%nat 100 initial))
    = Some (Throw PrivateMemberTypeError w')
    /\ nextReq (requestManager w') = 0%Z
    /\ sent w' = []
    /\ inFlight w' = [].
Proof.
  apply (dispatch_timer_throws nat 10000 1000 sampleHeaders
           (worldOf (setRequest 1000 ThisClient 7%nat 100 initial)) 1%nat
           {| timerId := 1%nat; callback := SendRequestsMethod;
              delay := 1000%Z; armedAt := 100%Z |} 1100%Z).
  - reflexivity.
  - reflexivity.
  - vm_compute. discriminate.
Defined.

(** C4, which the code does not meet.  Called on the client,
    [#sendRequests] makes exactly one [fetch] call, but its URL is the
    constant query and carries nothing of the queue, and the queue is left
    as it was. *)
Theorem sendRequests_ignores_queue
        (RequestData : Type) (requestTimeout requestInterval : Z)
        (headers : list (string * string))
        (w : World RequestData) (now : Z) :
  exists w',
    sendRequests requestTimeout requestInterval headers ThisClient now w
    = Normal w'
    /\ sent w' = (sent w ++ [apiRequest headers (nextController w)])%list
    /\ url (apiRequest headers (nextController w))
       = "https://hololive.wiki/w/api.php?action=query&format=json"
    /\ method (apiRequest headers (nextController w)) = "GET"
    /\ requestHeaders (apiRequest headers (nextController w)) = headers
    /\ queue (requestManager w') = queue (requestManager w).
Proof.
  eexists. split; [apply sendRequests_on_client|]. repeat split.
Qed.

(** The run behind C4: two requests wait in the queue when
    [#sendRequests] runs; the call made is the constant query and both
    requests are still in the queue. *)
Example queue_survives_dispatch :
  let w := run 10000 1000 sampleHeaders
               [(100, CallSetRequest 1%nat); (200, CallSetRequest 2%nat);
                (1100, CallSendRequests)]%Z initial in
  map url (sent w)
  = ["https://hololive.wiki/w/api.php?action=query&format=json"]
  /\ queue (requestManager w) = [1%nat; 2%nat].
Proof. split; reflexivity. Qed.

(** C5, which the code does not meet.  The callback of the abort timer is
    the method [abort] on its own; when [requestTimeout] has elapsed the
    runtime calls it with the timer as receiver, it throws a TypeError, the
    signal of the call is not aborted and the call stays in flight. *)
Theorem abort_timer_throws
        (RequestData : Type) (requestTimeout requestInterval : Z)
        (headers : list (string * string))
        (w : World RequestData) (id : TimerId) (t : Timer) (now : Z) :
  findTimer id w = Some t ->
  callback t = AbortMethod ->
  (due t <= now)%Z ->
  exists w',
    runTimer requestTimeout requestInterval headers id now w
    = Some (Throw InvalidThisTypeError w')
    /\ aborted w' = aborted w
    /\ inFlight w' = inFlight w.
Proof.
  intros F C D. exists (clearTimeout id w).
  unfold runTimer. rewrite F.
  apply Z.leb_le in D. rewrite D, C. repeat split.
Qed.

Lemma abort_timer_throws_witness :
  let w := worldOf (sendRequests 10000 1000 sampleHeaders ThisClient 0
                                 (@initial nat)) in
  exists w',
    runTimer 10000 1000 sampleHeaders 1%nat 10000 w
    = Some (Throw InvalidThisTypeError w')
    /\ aborted w' = []
    /\ inFlight w' = [{| request := apiRequest sampleHeaders 1%nat; guard := 1%nat |}].
Proof.
  apply (abort_timer_throws nat 10000 1000 sampleHeaders
           (worldOf (sendRequests 10000 1000 sampleHeaders ThisClient 0
                                  (@initial nat))) 1%nat
           {| timerId := 1%nat; callback := AbortMethod;
              delay := 10000%Z; armedAt := 0%Z |} 10000%Z).
  - reflexivity.
  - reflexivity.
  - vm_compute. discriminate.
Defined.

(** C6, as amended.  A [#setRequest] that finds no handle arms one timer
    for [#sendRequests]: its delay is [requestInterval] when the watermark
    is strictly before now, and the distance to the watermark otherwise,
    which is 0 when the watermark is now.  On a client just constructed
    (watermark 0) at any time after the epoch it is [requestInterval]. *)
Theorem setRequest_delay
        (RequestData : Type) (requestInterval : Z)
        (w : World RequestData) (data : RequestData) (now : Z) :
  timeout (requestManager w) = None ->
  exists d,
    timers (worldOf (setRequest requestInterval ThisClient data now w))
    = (timers w ++ [{| timerId := nextTimer w; callback := SendRequestsMethod;
                       delay := d; armedAt := now |}])%list
    /\ ((nextReq (requestManager w) < now)%Z -> d = requestInterval)
    /\ ((now < nextReq (requestManager w))%Z ->
        d = (nextReq (requestManager w) - now)%Z)
    /\ (nextReq (requestManager w) = now -> d = 0%Z)
    /\ (w = initial -> (0 < now)%Z -> d = requestInterval).
Proof.
  intros T. exists (requestDelay requestInterval (requestManager w) now).
  rewrite (setRequest_idle RequestData requestInterval w data now T).
  split; [reflexivity|].
  unfold requestDelay, isBefore.
  destruct (nextReq (requestManager w) <? now)%Z eqn:B.
  - apply Z.ltb_lt in B. repeat split; intros; lia.
  - apply Z.ltb_ge in B. repeat split; intros; subst; simpl in *; lia.
Qed.

Lemma setRequest_delay_witness :
  exists d,
    timers (worldOf (setRequest 1000 ThisClient 7%nat 100 initial))
    = [{| timerId := 1%nat; callback := SendRequestsMethod;
          delay := d; armedAt := 100%Z |}]
    /\ d = 1000%Z.
Proof.
  destruct (setRequest_delay nat 1000 initial 7%nat 100 eq_refl)
    as [d [A [B _]]].
  exists d. split; [exact A | apply B; reflexivity].
Defined.

(** C6 as stated fails when the watermark is exactly now: on a client just
    constructed, a request at time 0 arms the timer with delay 0, not with
    [requestInterval]. *)
Lemma delay_zero_at_watermark :
  ~ (forall (w : World nat) (data : nat) (now : Z),
        timeout (requestManager w) = None ->
        timers (worldOf (setRequest 1000 ThisClient data now w))
        = (timers w
             ++ [{| timerId := nextTimer w; callback := SendRequestsMethod;
                    delay := if (now <? nextReq (requestManager w))%Z
                             then (nextReq (requestManager w) - now)%Z
                             else 1000%Z;
                    armedAt := now |}])%list).
Proof.
  intros H. specialize (H initial 7%nat 0%Z eq_refl). discriminate H.
Qed.

(** ** Further properties of the constructor *)

Lemma compare_allowed (lo hi : Z) (n : number) :
  lt n (of_Z lo) = false -> gt n (of_Z hi) = false -> timingAllowed lo hi n.
Proof.
  unfold gt, of_Z, timingAllowed. destruct n as [|negative|q]; simpl.
  - auto.
  - destruct negative; discriminate.
  - rewrite !negb_false_iff, !Qle_bool_iff. intros L H.
    right. exists q. auto.
Qed.

(** X1.  A client the constructor returns has a name of at most 256 code
    units that has "bot" in it up to letter case, a version the semver
    library accepts, a contact of at most 256 code units, and timing values
    that are NaN or lie within their bounds; no infinity gets through. *)
Theorem constructed_client_valid
        (packageName packageVersion packageRepository packageAuthorAddress
         : string) (semverValid : string -> bool)
        (o : HololiveWikiOptions) (c : HololiveWiki) :
  construct packageName packageVersion packageRepository packageAuthorAddress
            semverValid o = inr c ->
  (String.length (name (options c)) <= 256)%nat
  /\ mentionsBot (name (options c))
  /\ semverValid (version (options c)) = true
  /\ (String.length (contact (options c)) <= 256)%nat
  /\ timingAllowed 500 30000 (requestTimeout (options c))
  /\ timingAllowed 500 5000 (requestInterval (options c)).
Proof.
  intros H. apply construct_inr in H. destruct H as [V _].
  unfold validateOptions in V. along_checks.
  all: injection V as V; rewrite <- V; simpl.
  all: repeat match goal with
              | E : negb _ = false |- _ => apply negb_false_iff in E
              | E : (_ <? _)%nat = false |- _ => apply Nat.ltb_ge in E
              end.
  all: repeat split; auto using compare_allowed.
  all: now apply mentionsBot_includes.
Qed.

Lemma constructed_client_valid_witness :
  exists c,
    construct "hololive-wiki" "0.1.0" "That-Guy977/hololive-wiki"
              "maintainer@example.com" plainSemver sampleOptions = inr c
    /\ mentionsBot (name (options c))
    /\ timingAllowed 500 30000 (requestTimeout (options c)).
Proof.
  eexists. split; [reflexivity|].
  destruct (constructed_client_valid
              "hololive-wiki" "0.1.0" "That-Guy977/hololive-wiki"
              "maintainer@example.com" plainSemver sampleOptions _ eq_refl)
    as [_ [B [_ [_ [T _]]]]].
  split; [exact B | exact T].
Defined.

(** X2.  A timing option that is absent or [null] gives the client the
    default, 10000 ms for requestTimeout and 1000 ms for requestInterval;
    a number that passes validation is kept as it is. *)
Theorem timing_defaults
        (packageName packageVersion packageRepository packageAuthorAddress
         : string) (semverValid : string -> bool)
        (o : HololiveWikiOptions) (c : HololiveWiki) :
  construct packageName packageVersion packageRepository packageAuthorAddress
            semverValid o = inr c ->
  (opt_requestTimeout o = VUndefined \/ opt_requestTimeout o = VNull ->
   requestTimeout (options c) = of_Z 10000)
  /\ (forall n, opt_requestTimeout o = VNumber n ->
                requestTimeout (options c) = n)
  /\ (opt_requestInterval o = VUndefined \/ opt_requestInterval o = VNull ->
      requestInterval (options c) = of_Z 1000)
  /\ (forall n, opt_requestInterval o = VNumber n ->
                requestInterval (options c) = n).
Proof.
  intros H. apply construct_inr in H. destruct H as [V _].
  pose proof (validateOptions_sound semverValid
                (assignProperties packageName packageVersion
                                  packageRepository packageAuthorAddress o))
    as S.
  rewrite V in S. destruct S as [_ S].
  assert (T : nullish (opt_requestTimeout o) (VNumber (of_Z 10000))
              = VNumber (requestTimeout (options c))).
  { apply (f_equal p_requestTimeout) in S. exact S. }
  assert (I : nullish (opt_requestInterval o) (VNumber (of_Z 1000))
              = VNumber (requestInterval (options c))).
  { apply (f_equal p_requestInterval) in S. exact S. }
  repeat split.
  - intros [E | E]; rewrite E in T; simpl in T; congruence.
  - intros n E. rewrite E in T. simpl in T. congruence.
  - intros [E | E]; rewrite E in I; simpl in I; congruence.
  - intros n E. rewrite E in I. simpl in I. congruence.
Qed.

Lemma timing_defaults_witness :
  exists c,
    construct "hololive-wiki" "0.1.0" "That-Guy977/hololive-wiki"
              "maintainer@example.com" plainSemver
              (withIntervalOption VNull sampleOptions) = inr c
    /\ requestTimeout (options c) = of_Z 10000
    /\ requestInterval (options c) = of_Z 1000.
Proof.
  eexists. split; [reflexivity|].
  destruct (timing_defaults
              "hololive-wiki" "0.1.0" "That-Guy977/hololive-wiki"
              "maintainer@example.com" plainSemver
              (withIntervalOption VNull sampleOptions) _ eq_refl)
    as [A [_ [B _]]].
  split; [apply A; left; reflexivity | apply B; right; reflexivity].
Defined.

Lemma default_name_mentions_bot (packageName : string) :
  includes (toLowerCase (packageName ++ " bot for Node")) "bot" = true.
Proof.
  apply mentionsBot_includes.
  exists (packageName ++ " "), "bot", " for Node". split; [|reflexivity].
  now rewrite append_assoc.
Qed.

Lemma construct_noOptions
      (packageName packageVersion packageRepository packageAuthorAddress
       : string) (semverValid : string -> bool) :
  construct packageName packageVersion packageRepository packageAuthorAddress
            semverValid noOptions
  = if (256 <? String.length (packageName ++ " bot for Node"))%nat
    then inl (RangeError FName)
    else if negb (includes (toLowerCase (packageName ++ " bot for Node")) "bot")
    then inl (RangeError FName)
    else if negb (semverValid packageVersion) then inl (RangeError FVersion)
    else if (256 <? String.length (("https://github.com/" ++ packageRepository)
                                     ++ "; " ++ packageAuthorAddress))%nat
    then inl (RangeError FContact)
    else generateHeaders packageName packageVersion
           {| requestTimeout := of_Z 10000;
              requestInterval := of_Z 1000;
              name := packageName ++ " bot for Node";
              version := packageVersion;
              contact := ("https://github.com/" ++ packageRepository)
                           ++ "; " ++ packageAuthorAddress |}.
Proof.
  unfold construct, validateOptions, assignProperties, noOptions.
  cbn [opt_requestTimeout opt_requestInterval opt_userAgent nullish
       p_requestTimeout p_requestInterval p_name p_version p_contact
       defaultUserAgent ua_name ua_version ua_contact
       normalizeContact everyString String.concat].
  change (lt (of_Z 10000) (of_Z 500)) with false.
  change (gt (of_Z 10000) (of_Z 30000)) with false.
  change (lt (of_Z 1000) (of_Z 500)) with false.
  change (gt (of_Z 1000) (of_Z 5000)) with false.
  cbv iota.
  destruct (256 <? String.length (packageName ++ " bot for Node"))%nat;
    [reflexivity|].
  destruct (negb (includes (toLowerCase (packageName ++ " bot for Node")) "bot"));
    [reflexivity|].
  destruct (negb (semverValid packageVersion)); [reflexivity|].
  destruct (256 <? String.length (("https://github.com/" ++ packageRepository)
                                    ++ "; " ++ packageAuthorAddress))%nat;
    reflexivity.
Qed.

Lemma default_userAgent
      (packageName packageVersion packageRepository packageAuthorAddress
       : string) :
  formatUserAgent packageName packageVersion
    {| requestTimeout := of_Z 10000;
       requestInterval := of_Z 1000;
       name := packageName ++ " bot for Node";
       version := packageVersion;
       contact := ("https://github.com/" ++ packageRepository)
                    ++ "; " ++ packageAuthorAddress |}
  = (packageName ++ " bot for Node") ++ "/" ++ packageVersion
      ++ " (" ++ (("https://github.com/" ++ packageRepository)
                    ++ "; " ++ packageAuthorAddress) ++ ") "
      ++ packageName ++ "/" ++ packageVersion.
Proof.
  unfold formatUserAgent. cbn [name version contact].
  cbn [String.length append Nat.eqb]. rewrite !append_assoc. reflexivity.
Qed.

(** X3.  [new HololiveWiki()] without any option returns a client exactly
    when the package name with " bot for Node" appended has at most 256
    code units, the package version is valid semver, the default contact
    (repository URL and author address joined with "; ") has at most 256
    code units, and the User-Agent string made of them is a legal header
    value; the word "bot" in the default name never fails.  The client
    then has the default timing and a User-Agent with the default contact
    in parentheses. *)
Theorem construct_without_options
        (packageName packageVersion packageRepository packageAuthorAddress
         : string) (semverValid : string -> bool) :
  ((exists c, construct packageName packageVersion packageRepository
                        packageAuthorAddress semverValid noOptions = inr c)
   <-> (String.length (packageName ++ " bot for Node") <= 256)%nat
       /\ semverValid packageVersion = true
       /\ (String.length (("https://github.com/" ++ packageRepository)
                            ++ "; " ++ packageAuthorAddress) <= 256)%nat
       /\ legalHeaderValue
            ((packageName ++ " bot for Node") ++ "/" ++ packageVersion
               ++ " (" ++ (("https://github.com/" ++ packageRepository)
                             ++ "; " ++ packageAuthorAddress) ++ ") "
               ++ packageName ++ "/" ++ packageVersion) = true)
  /\ forall c,
      construct packageName packageVersion packageRepository
                packageAuthorAddress semverValid noOptions = inr c ->
      userAgent c
      = (packageName ++ " bot for Node") ++ "/" ++ packageVersion
          ++ " (" ++ (("https://github.com/" ++ packageRepository)
                        ++ "; " ++ packageAuthorAddress) ++ ") "
          ++ packageName ++ "/" ++ packageVersion
      /\ requestTimeout (options c) = of_Z 10000
      /\ requestInterval (options c) = of_Z 1000.
Proof.
  rewrite construct_noOptions, default_name_mentions_bot, generateHeaders_eq.
  rewrite <- default_userAgent. cbn [negb].
  destruct (256 <? String.length (packageName ++ " bot for Node"))%nat eqn:N;
    [apply Nat.ltb_lt in N | apply Nat.ltb_ge in N].
  { split; [split|]; [intros [c H]; discriminate | lia | discriminate]. }
  destruct (semverValid packageVersion) eqn:V; cbn [negb].
  2:{ split; [split|];
        [intros [c H]; discriminate | intros [_ [H _]]; discriminate
        | discriminate]. }
  destruct (256 <? String.length (("https://github.com/" ++ packageRepository)
                                    ++ "; " ++ packageAuthorAddress))%nat eqn:K;
    [apply Nat.ltb_lt in K | apply Nat.ltb_ge in K].
  { split; [split|]; [intros [c H]; discriminate | lia | discriminate]. }
  destruct (legalHeaderValue _) eqn:L.
  2:{ split; [split|];
        [intros [c H]; discriminate | intros [_ [_ [_ H]]]; discriminate
        | discriminate]. }
  split; [split; eauto|].
  intros c H. injection H as <-. repeat split.
Qed.

Lemma construct_without_options_witness :
  exists c,
    construct "hololive-wiki" "0.1.0" "That-Guy977/hololive-wiki"
              "maintainer@example.com" plainSemver noOptions = inr c
    /\ userAgent c
       = "hololive-wiki bot for Node/0.1.0 (https://github.com/That-Guy977/hololive-wiki; maintainer@example.com) hololive-wiki/0.1.0".
Proof.
  destruct (construct_without_options
              "hololive-wiki" "0.1.0" "That-Guy977/hololive-wiki"
              "maintainer@example.com" plainSemver) as [[_ A] B].
  assert (H : exists c,
             construct "hololive-wiki" "0.1.0" "That-Guy977/hololive-wiki"
                       "maintainer@example.com" plainSemver noOptions = inr c).
  { apply A. split; [apply Nat.leb_le; reflexivity|]. split; [reflexivity|].
    split; [apply Nat.leb_le; reflexivity | reflexivity]. }
  destruct H as [c H].
  exists c. split; [exact H|]. destruct (B c H) as [U _]. exact U.
Defined.

Lemma unsnoc_None (r : string) : unsnoc r = None -> r = EmptyString.
Proof.
  destruct r as [|a r]; [reflexivity|]. simpl.
  destruct (unsnoc r) as [[? ?]|]; discriminate.
Qed.

Lemma unsnoc_inv (r i : string) (l : ascii) :
  unsnoc r = Some (i, l) -> r = i ++ String l EmptyString.
Proof.
  revert i. induction r as [|a r IH]; intros i H; simpl in H.
  - discriminate.
  - destruct (unsnoc r) as [[i' l']|] eqn:U.
    + injection H as <- <-. simpl. now rewrite (IH i' eq_refl).
    + injection H as <- <-. now rewrite (unsnoc_None r U).
Qed.

Lemma append_last_inj (t t' : string) (a b : ascii) :
  t ++ String a EmptyString = t' ++ String b EmptyString -> t = t' /\ a = b.
Proof.
  intros H. apply (f_equal unsnoc) in H. rewrite !unsnoc_last in H.
  injection H as -> ->. auto.
Qed.

Lemma not_open_paren_kept (c : ascii) (rest : string) :
  c <> "("%char -> replaceOuterParens (String c rest) = String c rest.
Proof.
  intros H. destruct c as [[] [] [] [] [] [] [] []];
    try reflexivity. contradiction H. reflexivity.
Qed.

Lemma not_close_paren_kept (rest i : string) (l : ascii) :
  unsnoc rest = Some (i, l) -> l <> ")"%char ->
  replaceOuterParens (String "(" rest) = String "(" rest.
Proof.
  intros U H. unfold replaceOuterParens. rewrite U.
  destruct i as [|x i]; [reflexivity|].
  destruct l as [[] [] [] [] [] [] [] []];
    try reflexivity. contradiction H. reflexivity.
Qed.

(** X4.  The replacement of the outer parentheses is all or nothing: a
    string that is an opening parenthesis, a non-empty text without line
    terminator and a closing parenthesis becomes that text, and every other
    string is kept as it is. *)
Theorem replaceOuterParens_spec (s : string) :
  (exists t, s = "(" ++ t ++ ")" /\ t <> EmptyString
             /\ noLineTerminator t = true /\ replaceOuterParens s = t)
  \/ ((forall t, s = "(" ++ t ++ ")" ->
                 t = EmptyString \/ noLineTerminator t = false)
      /\ replaceOuterParens s = s).
Proof.
  destruct s as [|c rest].
  { right. split; [intros t H; discriminate | reflexivity]. }
  destruct (ascii_dec c "(") as [->|Hc].
  2:{ right. split; [|now apply not_open_paren_kept].
      intros t H. injection H as H _. contradiction. }
  destruct (unsnoc rest) as [[i l]|] eqn:U.
  2:{ right. apply unsnoc_None in U. subst rest. split; [|reflexivity].
      intros t H. injection H as H. destruct t; discriminate. }
  pose proof (unsnoc_inv rest i l U) as R.
  destruct (ascii_dec l ")") as [->|Hl].
  2:{ right. split; [|now apply (not_close_paren_kept rest i l)].
      intros t H. injection H as H. rewrite R in H.
      apply append_last_inj in H. destruct H as [_ H]. contradiction. }
  assert (T : forall t, String "(" rest = "(" ++ t ++ ")" -> t = i).
  { intros t H. injection H as H. rewrite R in H.
    apply append_last_inj in H. symmetry. apply H. }
  unfold replaceOuterParens. rewrite U.
  destruct i as [|x i].
  { right. split; [|reflexivity]. intros t H. left. now apply T. }
  destruct (noLineTerminator (String x i)) eqn:L.
  - left. exists (String x i). rewrite R.
    split; [reflexivity|]. split; [discriminate|]. split; [exact L|].
    reflexivity.
  - right. split; [|reflexivity]. intros t H. right.
    rewrite (T t H). exact L.
Qed.

Lemma everyString_inv (elements : list value) (ss : list string) :
  everyString elements = Some ss -> elements = map VString ss.
Proof.
  revert ss. induction elements as [|v elements IH]; intros ss H; simpl in H.
  - injection H as <-. reflexivity.
  - destruct v; try discriminate.
    destruct (everyString elements) as [ss'|]; [|discriminate].
    injection H as <-. simpl. now rewrite (IH ss' eq_refl).
Qed.

(** X5.  The constructor makes a string of the contact exactly when the
    contact is [null], a string, or an array of which every element is a
    string; a contact of any other kind is stored unchanged, and the
    constructor then returns no client. *)
Theorem normalizeContact_kinds (v : value) :
  ((exists s, normalizeContact v = VString s)
   <-> v = VNull \/ (exists s, v = VString s)
       \/ (exists ss, v = VArray (map VString ss)))
  /\ ((forall s, normalizeContact v <> VString s) -> normalizeContact v = v)
  /\ forall packageName packageVersion packageRepository packageAuthorAddress
            semverValid o ua c,
      opt_userAgent o = Some ua -> ua_contact ua = v ->
      construct packageName packageVersion packageRepository
                packageAuthorAddress semverValid o = inr c ->
      normalizeContact v = VString (contact (options c)).
Proof.
  split; [|split].
  - split.
    + intros [s H]. destruct v; simpl in H; try discriminate; eauto.
      destruct (everyString elements) as [ss|] eqn:E; [|discriminate].
      right. right. exists ss. now rewrite (everyString_inv elements ss E).
    + intros [-> | [[s ->] | [ss ->]]]; simpl; eauto.
      rewrite everyString_strings. eauto.
  - intros H. destruct v; simpl in *; try reflexivity.
    + exfalso. exact (H _ eq_refl).
    + exfalso. exact (H _ eq_refl).
    + destruct (everyString elements); [|reflexivity].
      exfalso. exact (H _ eq_refl).
  - intros pn pv pr pa sv o ua c Ho Hc H.
    apply construct_inr in H. destruct H as [H _].
    pose proof (validateOptions_sound sv (assignProperties pn pv pr pa o)) as S.
    rewrite H in S. destruct S as [_ S].
    apply (f_equal p_contact) in S. simpl in S.
    rewrite Ho, Hc in S. exact S.
Qed.

Lemma normalizeContact_kinds_witness :
  exists s, normalizeContact (VArray [VString "a"; VString "b"]) = VString s.
Proof.
  apply (normalizeContact_kinds (VArray [VString "a"; VString "b"])).
  right. right. exists ["a"; "b"]. reflexivity.
Defined.

Lemma lowerChar_b (c : ascii) :
  lowerChar c = "b"%char <-> c = "b"%char \/ c = "B"%char.
Proof.
  destruct c as [[] [] [] [] [] [] [] []]; vm_compute;
    split; intros H; try discriminate; auto;
    destruct H as [H | H]; discriminate.
Qed.

Lemma lowerChar_o (c : ascii) :
  lowerChar c = "o"%char <-> c = "o"%char \/ c = "O"%char.
Proof.
  destruct c as [[] [] [] [] [] [] [] []]; vm_compute;
    split; intros H; try discriminate; auto;
    destruct H as [H | H]; discriminate.
Qed.

Lemma lowerChar_t (c : ascii) :
  lowerChar c = "t"%char <-> c = "t"%char \/ c = "T"%char.
Proof.
  destruct c as [[] [] [] [] [] [] [] []]; vm_compute;
    split; intros H; try discriminate; auto;
    destruct H as [H | H]; discriminate.
Qed.

(** X6.  The test [name.toLowerCase().includes("bot")] holds exactly for
    the names in which a "b" or "B" is directly followed by an "o" or "O"
    and that by a "t" or "T": no other code unit is lowered to one of
    these letters. *)
Theorem bot_test_explicit (n : string) :
  includes (toLowerCase n) "bot" = true
  <-> exists pre b o t post,
      n = pre ++ String b (String o (String t post))
      /\ (b = "b"%char \/ b = "B"%char)
      /\ (o = "o"%char \/ o = "O"%char)
      /\ (t = "t"%char \/ t = "T"%char).
Proof.
  rewrite <- mentionsBot_includes. unfold mentionsBot. split.
  - intros [pre [w [post [E W]]]].
    destruct w as [|b [|o [|t [|x w]]]]; simpl in W; try discriminate.
    injection W as Hb Ho Ht.
    exists pre, b, o, t, post. split; [exact E|].
    split; [now apply lowerChar_b|]. split; [now apply lowerChar_o|].
    now apply lowerChar_t.
  - intros [pre [b [o [t [post [E [Hb [Ho Ht]]]]]]]].
    exists pre, (String b (String o (String t EmptyString))), post.
    split; [exact E|]. simpl.
    apply lowerChar_b in Hb. apply lowerChar_o in Ho. apply lowerChar_t in Ht.
    now rewrite Hb, Ho, Ht.
Qed.

(** ** Properties of the earlier version *)

Lemma storedContact_emptyNull (o : UserAgentOptions) :
  storedContact (ua_contact (emptyNullContact o))
  = normalizeContact (ua_contact o).
Proof.
  unfold emptyNullContact. destruct (ua_contact o) eqn:E; simpl;
    try rewrite E; reflexivity.
Qed.

Lemma emptyNull_name (o : UserAgentOptions) :
  ua_name (emptyNullContact o) = ua_name o
  /\ ua_version (emptyNullContact o) = ua_version o.
Proof.
  unfold emptyNullContact. destruct (ua_contact o); auto.
Qed.

(** X7.  [#generateUserAgent] of the earlier version never throws the
    RangeError of the contact: the check under "validate contact" tests
    the length of the name, which has passed by then.  It returns a client
    exactly when the name is a string of at most 256 code units with "bot"
    in it, the version is a valid semver string and the contact is a
    string, of whatever length. *)
Theorem earlier_contact_unbounded
        (packageName packageVersion : string) (semverValid : string -> bool)
        (n v k : value) :
  generateUserAgent packageName packageVersion semverValid n v k
  <> inl (RangeError FContact)
  /\ ((exists w, generateUserAgent packageName packageVersion semverValid
                                   n v k = inr w)
      <-> exists name version contact,
          n = VString name /\ v = VString version /\ k = VString contact
          /\ (String.length name <= 256)%nat
          /\ includes (toLowerCase name) "bot" = true
          /\ semverValid version = true).
Proof.
  unfold generateUserAgent.
  destruct n as [| | | |name| |];
    try (split; [discriminate | split; [intros [w H]; discriminate
                                       | intros [? [? [? [H _]]]]; discriminate]]).
  destruct (256 <? String.length name)%nat eqn:N.
  { split; [discriminate|]. apply Nat.ltb_lt in N. split.
    - intros [w H]. discriminate.
    - intros [? [? [? [H [_ [_ [L _]]]]]]]. injection H as <-. lia. }
  destruct (includes (toLowerCase name) "bot") eqn:B; cbn [negb].
  2:{ split; [discriminate|]. split.
      - intros [w H]. discriminate.
      - intros [? [? [? [H [_ [_ [_ [I _]]]]]]]]. injection H as <-.
        congruence. }
  destruct v as [| | | |version| |];
    try (split; [discriminate
                | split; [intros [w H]; discriminate
                         | intros [? [? [? [_ [H _]]]]]; discriminate]]).
  destruct (semverValid version) eqn:V; cbn [negb].
  2:{ split; [discriminate|]. split.
      - intros [w H]. discriminate.
      - intros [? [? [? [_ [H [_ [_ [_ S]]]]]]]]. injection H as <-.
        congruence. }
  destruct k as [| | | |contact| |];
    try (split; [discriminate
                | split; [intros [w H]; discriminate
                         | intros [? [? [? [_ [_ [H _]]]]]]; discriminate]]).
  split; [discriminate|]. apply Nat.ltb_ge in N. split.
  - intros _. exists name, version, contact. repeat split; assumption.
  - intros _. eauto.
Qed.

(** A contact of 300 code units: the earlier version takes it, the
    current one throws. *)
Example long_contact_taken :
  let long := VString (String.concat EmptyString (repeat "a" 300)) in
  (exists w, snd (constructEarlier
                    "hololive-wiki" "0.1.0" "maintainer@example.com"
                    plainSemver
                    (Some {| ua_name := VString "abot";
                             ua_version := VString "1.0.0";
                             ua_contact := long |})) = inr w)
  /\ construct "hololive-wiki" "0.1.0" "That-Guy977/hololive-wiki"
               "maintainer@example.com" plainSemver
               {| opt_requestTimeout := VUndefined;
                  opt_requestInterval := VUndefined;
                  opt_userAgent := Some {| ua_name := VString "abot";
                                           ua_version := VString "1.0.0";
                                           ua_contact := long |} |}
     = inl (RangeError FContact).
Proof. split; [eexists|]; vm_compute; reflexivity. Qed.

(** X8.  The two versions agree on the User-Agent.  Where the current
    constructor returns a client for a [userAgent] option, the earlier
    constructor returns one for the same options, with the same name,
    version, contact and User-Agent string.  Where the earlier constructor
    returns a client whose contact has at most 256 code units and whose
    User-Agent string is a legal header value, the current constructor
    with default timing returns one with the same User-Agent string. *)
Theorem versions_agree
        (packageName packageVersion packageRepository packageAuthorAddress
         : string) (semverValid : string -> bool) (ua : UserAgentOptions) :
  (forall o c,
      opt_userAgent o = Some ua ->
      construct packageName packageVersion packageRepository
                packageAuthorAddress semverValid o = inr c ->
      exists w,
        snd (constructEarlier packageName packageVersion packageAuthorAddress
                              semverValid (Some ua)) = inr w
        /\ e_name w = name (options c)
        /\ e_version w = version (options c)
        /\ e_contact w = contact (options c)
        /\ e_userAgent w = userAgent c)
  /\ (forall w,
         snd (constructEarlier packageName packageVersion packageAuthorAddress
                               semverValid (Some ua)) = inr w ->
         (String.length (e_contact w) <= 256)%nat ->
         legalHeaderValue (e_userAgent w) = true ->
         exists c,
           construct packageName packageVersion packageRepository
                     packageAuthorAddress semverValid
                     {| opt_requestTimeout := VUndefined;
                        opt_requestInterval := VUndefined;
                        opt_userAgent := Some ua |} = inr c
           /\ userAgent c = e_userAgent w).
Proof.
  unfold constructEarlier. cbn [snd].
  destruct (emptyNull_name ua) as [En Ev].
  rewrite En, Ev, storedContact_emptyNull.
  split.
  - intros o c Ho H. apply construct_inr in H. destruct H as [V [G _]].
    unfold validateOptions, assignProperties in V. rewrite Ho in V.
    cbn [p_requestTimeout p_requestInterval p_name p_version p_contact] in V.
    along_checks.
    all: injection V as V.
    all: rewrite G, <- V; clear G V.
    all: unfold generateUserAgent.
    all: repeat match goal with
                | E : ?x = _ |- context [?x] => rewrite E
                end.
    all: eexists; repeat split.
  - intros w H L Lg. unfold generateUserAgent in H. along_checks.
    all: injection H as H; rewrite <- H in L, Lg.
    all: cbn [e_contact e_userAgent] in L, Lg.
    all: apply Nat.ltb_ge in L.
    all: rewrite construct_cases.
    all: unfold validateOptions, assignProperties.
    all: cbn [opt_requestTimeout opt_requestInterval opt_userAgent nullish
              p_requestTimeout p_requestInterval p_name p_version p_contact].
    all: change (lt (of_Z 10000) (of_Z 500)) with false.
    all: change (gt (of_Z 10000) (of_Z 30000)) with false.
    all: change (lt (of_Z 1000) (of_Z 500)) with false.
    all: change (gt (of_Z 1000) (of_Z 5000)) with false.
    all: cbv iota.
    all: rewrite <- H; clear H.
    all: repeat match goal with
                | E : ?x = _ |- context [?x] => rewrite E
                end.
    all: unfold builtClient, formatUserAgent.
    all: cbn [userAgent options name version contact e_userAgent].
    all: repeat match goal with
                | E : ?x = _ |- context [?x] => rewrite E
                end.
    all: destruct (legalHeaderValue _) eqn:L2;
      [eexists; split; reflexivity | exfalso].
    all: first [ discriminate Lg
               | assert (X : true = false) by (rewrite <- Lg; exact L2);
                 discriminate X ].
Qed.

Lemma versions_agree_witness :
  exists w,
    snd (constructEarlier "hololive-wiki" "0.1.0" "maintainer@example.com"
                          plainSemver
                          (Some {| ua_name := VString "abot";
                                   ua_version := VString "1.0.0";
                                   ua_contact := VNull |})) = inr w
    /\ e_userAgent w = "abot/1.0.0 hololive-wiki/0.1.0".
Proof.
  destruct (versions_agree
              "hololive-wiki" "0.1.0" "That-Guy977/hololive-wiki"
              "maintainer@example.com" plainSemver
              {| ua_name := VString "abot"; ua_version := VString "1.0.0";
                 ua_contact := VNull |}) as [A _].
  destruct (A sampleOptions _ eq_refl eq_refl) as [w [H [_ [_ [_ U]]]]].
  exists w. split; [exact H | exact U].
Defined.

(** ** Runs of the request manager *)

Section RunFacts.

Variable RequestData : Type.
Variables requestTimeout requestInterval : Z.
Variable headers : list (string * string).

Local Abbreviation World := (World RequestData).
Local Abbreviation step' := (step requestTimeout requestInterval headers).
Local Abbreviation run' := (run requestTimeout requestInterval headers).

Lemma filter_all {A : Type} (l : list A) : filter (fun _ => true) l = l.
Proof. induction l as [|x l IH]; simpl; [reflexivity | now rewrite IH]. Qed.

Lemma distinct_keys_filter {K V : Type} (key : V -> K) (keep : V -> bool)
      (xs : list V) (D : NoDup (map key xs)) :
  NoDup (map key (filter keep xs)).
Proof.
  induction xs as [|x xs IH]; cbn in *; [constructor|].
  apply NoDup_cons_iff in D. destruct D as [Fresh D].
  destruct (keep x); cbn; [|exact (IH D)].
  apply NoDup_cons_iff. split; [|exact (IH D)].
  intros Old. apply Fresh. apply in_map_iff in Old.
  destruct Old as [y [Same Kept]]. apply filter_In in Kept.
  apply in_map_iff. exists y. tauto.
Qed.

(** A timer running or a promise settling changes nothing but the tables
    of armed timers and pending calls, from which entries are taken out. *)
Lemma step_passive (now : Z) (e : Event RequestData) (w : World) :
  (forall data, e <> CallSetRequest data) -> e <> CallSendRequests ->
  requestManager (step' now e w) = requestManager w
  /\ aborted (step' now e w) = aborted w
  /\ sent (step' now e w) = sent w
  /\ nextTimer (step' now e w) = nextTimer w
  /\ nextController (step' now e w) = nextController w
  /\ (exists p, timers (step' now e w) = filter p (timers w))
  /\ (exists q, inFlight (step' now e w) = filter q (inFlight w)).
Proof.
  intros H1 H2. destruct e as [data| |id|c fulfilled].
  - exfalso. exact (H1 data eq_refl).
  - exfalso. exact (H2 eq_refl).
  - cbn [step]. unfold runTimer.
    destruct (findTimer id w) as [t|].
    2:{ repeat split; try (exists (fun _ => true); now rewrite filter_all). }
    destruct (due t <=? now)%Z.
    2:{ repeat split; try (exists (fun _ => true); now rewrite filter_all). }
    rewrite invoke_on_timer. simpl. repeat split.
    + eexists. reflexivity.
    + exists (fun _ => true). now rewrite filter_all.
  - cbn [step]. unfold settle.
    destruct (findCall c w) as [k|].
    2:{ repeat split; try (exists (fun _ => true); now rewrite filter_all). }
    simpl. repeat split; eexists; reflexivity.
Qed.

Lemma queue_step (now : Z) (e : Event RequestData) (w : World) :
  queue (requestManager (step' now e w))
  = (queue (requestManager w)
       ++ match e with
          | CallSetRequest data => [data]
          | _ => []
          end)%list.
Proof.
  destruct e as [data| |id|c fulfilled].
  - cbn [step]. destruct (timeout (requestManager w)) as [id|] eqn:T.
    + now rewrite (setRequest_armed RequestData requestInterval w id data now T).
    + now rewrite (setRequest_idle RequestData requestInterval w data now T).
  - simpl. now rewrite app_nil_r.
  - destruct (step_passive now (TimerRuns id) w) as [M _];
      [discriminate | discriminate |]. rewrite M. now rewrite app_nil_r.
  - destruct (step_passive now (Settles c fulfilled) w) as [M _];
      [discriminate | discriminate |]. rewrite M. now rewrite app_nil_r.
Qed.

Lemma queue_run (trace : list (Z * Event RequestData)) (w : World) :
  queue (requestManager (run' trace w))
  = (queue (requestManager w) ++ submitted trace)%list.
Proof.
  revert w. induction trace as [|[now e] trace IH]; intros w; simpl.
  - now rewrite app_nil_r.
  - rewrite IH, queue_step. destruct e; simpl;
      rewrite <- ?app_assoc, ?app_nil_r; reflexivity.
Qed.

Lemma aborted_step (now : Z) (e : Event RequestData) (w : World) :
  aborted (step' now e w) = aborted w.
Proof.
  destruct e as [data| |id|c fulfilled].
  - cbn [step]. destruct (timeout (requestManager w)) as [id|] eqn:T.
    + now rewrite (setRequest_armed RequestData requestInterval w id data now T).
    + now rewrite (setRequest_idle RequestData requestInterval w data now T).
  - reflexivity.
  - apply (step_passive now (TimerRuns id) w); discriminate.
  - apply (step_passive now (Settles c fulfilled) w); discriminate.
Qed.

Lemma aborted_run (trace : list (Z * Event RequestData)) (w : World) :
  aborted (run' trace w) = aborted w.
Proof.
  revert w. induction trace as [|[now e] trace IH]; intros w; simpl.
  - reflexivity.
  - now rewrite IH, aborted_step.
Qed.

Lemma sent_step (now : Z) (e : Event RequestData) (w : World) :
  sent (step' now e w)
  = (sent w ++ match e with
               | CallSendRequests => [apiRequest headers (nextController w)]
               | _ => []
               end)%list.
Proof.
  destruct e as [data| |id|c fulfilled].
  - cbn [step]. destruct (timeout (requestManager w)) as [id|] eqn:T.
    + rewrite (setRequest_armed RequestData requestInterval w id data now T).
      simpl. now rewrite app_nil_r.
    + rewrite (setRequest_idle RequestData requestInterval w data now T).
      simpl. now rewrite app_nil_r.
  - reflexivity.
  - destruct (step_passive now (TimerRuns id) w) as [_ [_ [S _]]];
      [discriminate | discriminate |]. rewrite S. now rewrite app_nil_r.
  - destruct (step_passive now (Settles c fulfilled) w) as [_ [_ [S _]]];
      [discriminate | discriminate |]. rewrite S. now rewrite app_nil_r.
Qed.

Lemma nextReq_step (now : Z) (e : Event RequestData) (w : World) :
  nextReq (requestManager (step' now e w))
  = match e with
    | CallSendRequests => (now + requestInterval)%Z
    | _ => nextReq (requestManager w)
    end.
Proof.
  destruct e as [data| |id|c fulfilled].
  - cbn [step]. destruct (timeout (requestManager w)) as [id|] eqn:T.
    + now rewrite (setRequest_armed RequestData requestInterval w id data now T).
    + now rewrite (setRequest_idle RequestData requestInterval w data now T).
  - reflexivity.
  - destruct (step_passive now (TimerRuns id) w) as [M _];
      [discriminate | discriminate |]. now rewrite M.
  - destruct (step_passive now (Settles c fulfilled) w) as [M _];
      [discriminate | discriminate |]. now rewrite M.
Qed.

Lemma inFlight_step_timerDriven (now : Z) (e : Event RequestData) (w : World) :
  e <> CallSendRequests -> inFlight w = [] -> inFlight (step' now e w) = [].
Proof.
  intros H I. destruct e as [data| |id|c fulfilled].
  - cbn [step]. destruct (timeout (requestManager w)) as [id|] eqn:T.
    + now rewrite (setRequest_armed RequestData requestInterval w id data now T).
    + now rewrite (setRequest_idle RequestData requestInterval w data now T).
  - contradiction.
  - destruct (step_passive now (TimerRuns id) w) as [_ [_ [_ [_ [_ [_ [q Q]]]]]]];
      [discriminate | discriminate |]. now rewrite Q, I.
  - destruct (step_passive now (Settles c fulfilled) w)
      as [_ [_ [_ [_ [_ [_ [q Q]]]]]]];
      [discriminate | discriminate |]. now rewrite Q, I.
Qed.

Lemma timerDriven_run (trace : list (Z * Event RequestData)) (w : World) :
  timerDriven trace = true -> inFlight w = [] ->
  sent (run' trace w) = sent w
  /\ inFlight (run' trace w) = []
  /\ nextReq (requestManager (run' trace w)) = nextReq (requestManager w).
Proof.
  revert w. induction trace as [|[now e] trace IH]; intros w D I; simpl.
  - auto.
  - assert (E : e <> CallSendRequests /\ timerDriven trace = true).
    { destruct e; simpl in D; split; try discriminate; assumption. }
    destruct E as [E D'].
    destruct (IH (step' now e w) D'
                 (inFlight_step_timerDriven now e w E I)) as [S [F N]].
    rewrite S, N, sent_step, nextReq_step.
    destruct e; try contradiction; rewrite ?app_nil_r; auto.
Qed.

Lemma sent_shape_run (trace : list (Z * Event RequestData)) (w : World) :
  (forall r, In r (sent w) -> r = apiRequest headers (signal r)) ->
  forall r, In r (sent (run' trace w)) -> r = apiRequest headers (signal r).
Proof.
  revert w. induction trace as [|[now e] trace IH]; intros w H; simpl.
  - exact H.
  - apply IH. intros r. rewrite sent_step. intros Hin.
    apply in_app_or in Hin. destruct Hin as [Hin | Hin]; [now apply H|].
    destruct e; simpl in Hin; try contradiction.
    destruct Hin as [<- | []]. reflexivity.
Qed.

End RunFacts.

(** X9.  The queue is the log of the requests: after any run it holds the
    descriptors handed to [#setRequest], all of them and in their order.
    Nothing in the class ever takes a descriptor out. *)
Theorem queue_never_drained
        (RequestData : Type) (requestTimeout requestInterval : Z)
        (headers : list (string * string))
        (trace : list (Z * Event RequestData)) (w : World RequestData) :
  queue (requestManager (run requestTimeout requestInterval headers trace w))
  = (queue (requestManager w) ++ submitted trace)%list
  /\ queue (requestManager
              (run requestTimeout requestInterval headers trace initial))
     = submitted trace.
Proof.
  split; [apply queue_run|]. now rewrite queue_run.
Qed.

(** X10.  Left to its timers, the client sends nothing: in a run in which
    [#sendRequests] is reached only as the callback of a timer, no [fetch]
    call is ever made, none is pending, and the watermark stays at 0,
    however many requests are handed in. *)
Theorem timers_alone_send_nothing
        (RequestData : Type) (requestTimeout requestInterval : Z)
        (headers : list (string * string))
        (trace : list (Z * Event RequestData)) :
  timerDriven trace = true ->
  sent (run requestTimeout requestInterval headers trace initial) = []
  /\ inFlight (run requestTimeout requestInterval headers trace initial) = []
  /\ nextReq (requestManager
                (run requestTimeout requestInterval headers trace initial))
     = 0%Z.
Proof.
  intros D.
  exact (timerDriven_run RequestData requestTimeout requestInterval headers
           trace initial D eq_refl).
Qed.

Lemma timers_alone_send_nothing_witness :
  let trace := [(100, CallSetRequest 1%nat); (1100, TimerRuns 1%nat);
                (1200, CallSetRequest 2%nat); (9000, TimerRuns 1%nat)]%Z in
  sent (run 10000 1000 sampleHeaders trace initial) = []
  /\ inFlight (run 10000 1000 sampleHeaders trace initial) = []
  /\ nextReq (requestManager (run 10000 1000 sampleHeaders trace initial))
     = 0%Z.
Proof.
  exact (timers_alone_send_nothing nat 10000 1000 sampleHeaders
           [(100, CallSetRequest 1%nat); (1100, TimerRuns 1%nat);
            (1200, CallSetRequest 2%nat); (9000, TimerRuns 1%nat)]%Z eq_refl).
Defined.

(** X11.  Every [fetch] call a constructed client ever makes is a GET of
    the one query URL and carries the three headers built at construction,
    the User-Agent among them. *)
Theorem every_request_identifies
        (packageName packageVersion packageRepository packageAuthorAddress
         : string) (semverValid : string -> bool)
        (o : HololiveWikiOptions) (c : HololiveWiki)
        (RequestData : Type) (requestTimeout requestInterval : Z)
        (trace : list (Z * Event RequestData)) (r : Request) :
  construct packageName packageVersion packageRepository packageAuthorAddress
            semverValid o = inr c ->
  In r (sent (run requestTimeout requestInterval (headers c) trace initial)) ->
  url r = "https://hololive.wiki/w/api.php?action=query&format=json"
  /\ method r = "GET"
  /\ requestHeaders r = [("User-Agent", userAgent c);
                         ("Accept-Encoding", "gzip");
                         ("Connection", "keep-alive")].
Proof.
  intros H Hin. apply construct_inr in H. destruct H as [_ [G _]].
  apply (sent_shape_run RequestData requestTimeout requestInterval (headers c)
           trace initial) in Hin; [|intros r' []].
  rewrite Hin, G. repeat split.
Qed.

Lemma every_request_identifies_witness :
  exists c,
    construct "hololive-wiki" "0.1.0" "That-Guy977/hololive-wiki"
              "maintainer@example.com" plainSemver sampleOptions = inr c
    /\ requestHeaders (apiRequest (headers c) 1%nat)
       = [("User-Agent", "abot/1.0.0 hololive-wiki/0.1.0");
          ("Accept-Encoding", "gzip");
          ("Connection", "keep-alive")].
Proof.
  eexists. split; [reflexivity|].
  refine (proj2 (proj2 (every_request_identifies
                          "hololive-wiki" "0.1.0" "That-Guy977/hololive-wiki"
                          "maintainer@example.com" plainSemver sampleOptions _
                          nat 10000 1000 [(0, CallSendRequests)]%Z _
                          eq_refl _))).
  left. reflexivity.
Defined.

(** X12.  No signal is ever aborted: in every run, whatever timers run
    and however long calls stay pending, the list of aborted controllers
    stays empty. *)
Theorem never_aborted
        (RequestData : Type) (requestTimeout requestInterval : Z)
        (headers : list (string * string))
        (trace : list (Z * Event RequestData)) :
  aborted (run requestTimeout requestInterval headers trace
               (@initial RequestData)) = [].
Proof.
  now rewrite aborted_run.
Qed.

Section WellFormedFacts.

Variable RequestData : Type.
Variables requestTimeout requestInterval : Z.
Variable headers : list (string * string).

Local Abbreviation World := (World RequestData).
Local Abbreviation step' := (step requestTimeout requestInterval headers).
Local Abbreviation run' := (run requestTimeout requestInterval headers).

Lemma NoDup_map_snoc {A : Type} (f : A -> nat) (l : list A) (x : A) (n : nat) :
  NoDup (map f l) -> (forall y, In y l -> (f y < n)%nat) -> f x = n ->
  NoDup (map f (l ++ [x])).
Proof.
  intros D B E. rewrite map_app. apply NoDup_app.
  - exact D.
  - simpl. constructor; [intros [] | constructor].
  - intros a Ha [<- | []]. apply in_map_iff in Ha.
    destruct Ha as [y [Ey Hy]]. specialize (B y Hy). lia.
Qed.

Lemma distinct_keys_eq {K V : Type} (key : V -> K) (xs : list V)
      (D : NoDup (map key xs)) (a b : V) :
  In a xs -> In b xs -> key a = key b -> a = b.
Proof.
  induction xs as [|x xs IH]; cbn in *; [contradiction|].
  apply NoDup_cons_iff in D. destruct D as [Fresh D].
  intros [Ha | Ha] [Hb | Hb] Same; subst.
  - reflexivity.
  - exfalso. apply Fresh. rewrite Same. now apply in_map.
  - exfalso. apply Fresh. rewrite <- Same. now apply in_map.
  - exact (IH D Ha Hb Same).
Qed.

Lemma find_filter_other (ts : list Timer) (g g0 : TimerId) :
  g <> g0 ->
  find (fun t => (timerId t =? g)%nat)
       (filter (fun t => negb (timerId t =? g0)%nat) ts)
  = find (fun t => (timerId t =? g)%nat) ts.
Proof.
  intros H. induction ts as [|t ts IH]; simpl; [reflexivity|].
  destruct (timerId t =? g0)%nat eqn:E0; simpl.
  - apply Nat.eqb_eq in E0.
    destruct (timerId t =? g)%nat eqn:E; [|exact IH].
    apply Nat.eqb_eq in E. congruence.
  - rewrite IH. reflexivity.
Qed.

Lemma in_snoc_bound {A : Type} (f : A -> nat) (l : list A) (x : A) (n : nat) :
  (forall y, In y l -> (f y < n)%nat) -> f x = n ->
  forall y, In y (l ++ [x]) -> (f y < S n)%nat.
Proof.
  intros B E y Hy. apply in_app_or in Hy. destruct Hy as [Hy | [<- | []]].
  - specialize (B y Hy). lia.
  - lia.
Qed.

Lemma wellFormed_step (now : Z) (e : Event RequestData) (w : World) :
  wellFormed w -> wellFormed (step' now e w).
Proof.
  intros [T1 [T2 [G1 [G2 [S1 S2]]]]].
  destruct e as [data| |id|c fulfilled].
  - cbn [step]. destruct (timeout (requestManager w)) as [id|] eqn:T.
    + rewrite (setRequest_armed RequestData requestInterval w id data now T).
      repeat split; assumption.
    + rewrite (setRequest_idle RequestData requestInterval w data now T).
      unfold wellFormed. simpl. repeat split; try assumption.
      * now apply (NoDup_map_snoc timerId _ _ (nextTimer w)).
      * now apply (in_snoc_bound timerId _ _ (nextTimer w)).
      * intros k Hk. specialize (G2 k Hk). lia.
  - cbn [step]. rewrite sendRequests_on_client.
    unfold wellFormed. simpl. repeat split.
    + now apply (NoDup_map_snoc timerId _ _ (nextTimer w)).
    + now apply (in_snoc_bound timerId _ _ (nextTimer w)).
    + now apply (NoDup_map_snoc guard _ _ (nextTimer w)).
    + now apply (in_snoc_bound guard _ _ (nextTimer w)).
    + now apply (NoDup_map_snoc (fun k => signal (request k)) _ _
                                (nextController w)).
    + now apply (in_snoc_bound (fun k => signal (request k)) _ _
                               (nextController w)).
  - destruct (step_passive RequestData requestTimeout requestInterval headers
                now (TimerRuns id) w)
      as [_ [_ [_ [Nt [Nc [[p P] [q Q]]]]]]]; [discriminate | discriminate |].
    unfold wellFormed. rewrite P, Q, Nt, Nc. repeat split.
    + now apply distinct_keys_filter.
    + intros t Ht. apply filter_In in Ht. now apply T2.
    + now apply distinct_keys_filter.
    + intros k Hk. apply filter_In in Hk. now apply G2.
    + now apply distinct_keys_filter.
    + intros k Hk. apply filter_In in Hk. now apply S2.
  - destruct (step_passive RequestData requestTimeout requestInterval headers
                now (Settles c fulfilled) w)
      as [_ [_ [_ [Nt [Nc [[p P] [q Q]]]]]]]; [discriminate | discriminate |].
    unfold wellFormed. rewrite P, Q, Nt, Nc. repeat split.
    + now apply distinct_keys_filter.
    + intros t Ht. apply filter_In in Ht. now apply T2.
    + now apply distinct_keys_filter.
    + intros k Hk. apply filter_In in Hk. now apply G2.
    + now apply distinct_keys_filter.
    + intros k Hk. apply filter_In in Hk. now apply S2.
Qed.

Lemma wellFormed_run (trace : list (Z * Event RequestData)) (w : World) :
  wellFormed w -> wellFormed (run' trace w).
Proof.
  revert w. induction trace as [|[now e] trace IH]; intros w H; simpl.
  - exact H.
  - apply IH. now apply wellFormed_step.
Qed.

Lemma wellFormed_initial : wellFormed (@initial RequestData).
Proof.
  unfold wellFormed. simpl.
  split; [constructor|]. split; [intros t []|].
  split; [constructor|]. split; [intros k []|].
  split; [constructor | intros k []].
Qed.

(** In a well-formed world, a settling call takes its own abort timer
    with it and leaves the other pending calls and their timers alone. *)
Lemma settle_isolated (w : World) (c : ControllerId) (fulfilled : bool)
      (k : Call) :
  wellFormed w -> findCall c w = Some k ->
  exists w',
    settle c fulfilled w = Some w'
    /\ findTimer (guard k) w' = None
    /\ ~ In k (inFlight w')
    /\ forall k', In k' (inFlight w) -> k' <> k ->
                  In k' (inFlight w')
                  /\ findTimer (guard k') w' = findTimer (guard k') w.
Proof.
  intros [_ [_ [G1 [_ [S1 _]]]]] F.
  unfold settle. rewrite F. eexists. split; [reflexivity|].
  unfold findCall in F. apply find_some in F. destruct F as [Hk Hc].
  apply Nat.eqb_eq in Hc.
  split; [apply clearTimeout_disarms|]. split.
  - simpl. intros Hin. apply filter_In in Hin. destruct Hin as [_ Hin].
    rewrite Hc, Nat.eqb_refl in Hin. discriminate.
  - intros k' Hk' Hne. split.
    + simpl. apply filter_In. split; [exact Hk'|].
      apply negb_true_iff, Nat.eqb_neq. intros E. apply Hne.
      apply (distinct_keys_eq (fun k => signal (request k)) (inFlight w));
        auto. congruence.
    + unfold findTimer, clearTimeout. simpl. apply find_filter_other.
      intros E. apply Hne.
      now apply (distinct_keys_eq guard (inFlight w)).
Qed.

End WellFormedFacts.

(** X14.  After any run, when the promise of a pending call settles the
    [finally] callback disarms the abort timer of that call only: the call
    leaves the pending calls, and every other pending call stays pending
    with its abort timer as it was. *)
Theorem settle_keeps_other_guards
        (RequestData : Type) (requestTimeout requestInterval : Z)
        (headers : list (string * string))
        (trace : list (Z * Event RequestData))
        (c : ControllerId) (fulfilled : bool) (k : Call) :
  findCall c (run requestTimeout requestInterval headers trace
                  (@initial RequestData)) = Some k ->
  exists w',
    settle c fulfilled
           (run requestTimeout requestInterval headers trace initial) = Some w'
    /\ findTimer (guard k) w' = None
    /\ ~ In k (inFlight w')
    /\ forall k',
        In k' (inFlight (run requestTimeout requestInterval headers trace
                             initial)) ->
        k' <> k ->
        In k' (inFlight w')
        /\ findTimer (guard k') w'
           = findTimer (guard k')
                       (run requestTimeout requestInterval headers trace initial).
Proof.
  intros F. apply settle_isolated; [|exact F].
  apply wellFormed_run, wellFormed_initial.
Qed.

Lemma settle_keeps_other_guards_witness :
  let w := run (RequestData := nat) 10000 1000 sampleHeaders
               [(0, CallSendRequests); (1000, CallSendRequests)]%Z initial in
  exists w',
    settle 1%nat true w = Some w'
    /\ findTimer 1%nat w' = None
    /\ findTimer 2%nat w'
       = Some {| timerId := 2%nat; callback := AbortMethod;
                 delay := 10000%Z; armedAt := 1000%Z |}.
Proof.
  destruct (settle_keeps_other_guards nat 10000 1000 sampleHeaders
              [(0, CallSendRequests); (1000, CallSendRequests)]%Z
              1%nat true
              {| request := apiRequest sampleHeaders 1%nat; guard := 1%nat |}
              eq_refl) as [w' [S [G [_ K]]]].
  exists w'. split; [exact S|]. split; [exact G|].
  destruct (K {| request := apiRequest sampleHeaders 2%nat; guard := 2%nat |})
    as [_ T].
  - right. left. reflexivity.
  - discriminate.
  - exact T.
Defined.

(** X15.  [new HololiveWiki()] of the earlier version, without argument,
    returns a client exactly when the package name with " bot for Node"
    appended has at most 256 code units and the package version is valid
    semver; the contact of the client is the author address, without its
    outer parentheses if it has them, and of whatever length. *)
Theorem earlier_without_options
        (packageName packageVersion packageAuthorAddress : string)
        (semverValid : string -> bool) :
  ((exists w, snd (constructEarlier packageName packageVersion
                                    packageAuthorAddress semverValid None)
              = inr w)
   <-> (String.length (packageName ++ " bot for Node") <= 256)%nat
       /\ semverValid packageVersion = true)
  /\ forall w,
      snd (constructEarlier packageName packageVersion packageAuthorAddress
                            semverValid None) = inr w ->
      e_name w = packageName ++ " bot for Node"
      /\ e_version w = packageVersion
      /\ e_contact w = replaceOuterParens packageAuthorAddress.
Proof.
  unfold constructEarlier, defaultOptions, emptyNullContact, generateUserAgent.
  cbn [snd ua_name ua_version ua_contact storedContact].
  rewrite default_name_mentions_bot. cbn [negb].
  destruct (256 <? String.length (packageName ++ " bot for Node"))%nat eqn:N;
    [apply Nat.ltb_lt in N | apply Nat.ltb_ge in N].
  { split; [split|]; [intros [w H]; discriminate | lia | discriminate]. }
  destruct (semverValid packageVersion) eqn:V; cbn [negb].
  2:{ split; [split|];
        [intros [w H]; discriminate | intros [_ H]; discriminate
        | discriminate]. }
  split; [split; eauto|].
  intros w H. injection H as <-. repeat split.
Qed.

Lemma earlier_without_options_witness :
  exists w,
    snd (constructEarlier "hololive-wiki" "0.1.0" "(maintainer@example.com)"
                          plainSemver None) = inr w
    /\ e_contact w = "maintainer@example.com".
Proof.
  destruct (earlier_without_options "hololive-wiki" "0.1.0"
              "(maintainer@example.com)" plainSemver) as [[_ A] B].
  assert (H : exists w,
             snd (constructEarlier "hololive-wiki" "0.1.0"
                                   "(maintainer@example.com)" plainSemver None)
             = inr w).
  { apply A. split; [apply Nat.leb_le; reflexivity | reflexivity]. }
  destruct H as [w H]. exists w. split; [exact H|].
  destruct (B w H) as [_ [_ K]]. exact K.
Defined.

Section GuardFacts.

Variable RequestData : Type.
Variables requestTimeout requestInterval : Z.
Variable headers : list (string * string).

Local Abbreviation World := (World RequestData).
Local Abbreviation step' := (step requestTimeout requestInterval headers).
Local Abbreviation run' := (run requestTimeout requestInterval headers).

Lemma guardsPending_step (now : Z) (e : Event RequestData) (w : World) :
  wellFormed w -> guardsPending w -> guardsPending (step' now e w).
Proof.
  intros W G. destruct e as [data| |id|c fulfilled].
  - cbn [step]. destruct (timeout (requestManager w)) as [id|] eqn:T.
    + rewrite (setRequest_armed RequestData requestInterval w id data now T).
      exact G.
    + rewrite (setRequest_idle RequestData requestInterval w data now T).
      intros t Ht Ct. simpl in Ht. apply in_app_or in Ht.
      destruct Ht as [Ht | [<- | []]]; [|discriminate Ct].
      exact (G t Ht Ct).
  - cbn [step]. rewrite sendRequests_on_client.
    intros t Ht Ct. simpl in Ht. simpl. apply in_app_or in Ht.
    destruct Ht as [Ht | [<- | []]].
    + destruct (G t Ht Ct) as [k [Hk Ek]]. exists k.
      split; [apply in_or_app; now left | exact Ek].
    + eexists. split; [apply in_or_app; right; left; reflexivity|].
      reflexivity.
  - destruct (step_TimerRuns RequestData requestTimeout requestInterval
                headers id now w) as [-> | ->]; [exact G|].
    intros t Ht Ct. simpl in Ht. apply filter_In in Ht.
    destruct Ht as [Ht _]. exact (G t Ht Ct).
  - cbn [step]. destruct (settle c fulfilled w) as [w'|] eqn:S; [|exact G].
    destruct (findCall c w) as [k|] eqn:F.
    2:{ unfold settle in S. rewrite F in S. discriminate. }
    destruct (settle_isolated RequestData w c fulfilled k W F)
      as [w'' [S' [_ [_ K]]]].
    rewrite S in S'. injection S' as <-.
    intros t Ht Ct.
    unfold settle in S. rewrite F in S. injection S as <-.
    simpl in Ht. apply filter_In in Ht. destruct Ht as [Ht Nt].
    destruct (G t Ht Ct) as [k' [Hk' Ek']]. exists k'.
    split; [|exact Ek'].
    apply K; [exact Hk'|]. intros ->.
    rewrite Ek', Nat.eqb_refl in Nt. discriminate.
Qed.

Lemma guardsPending_run (trace : list (Z * Event RequestData)) (w : World) :
  wellFormed w -> guardsPending w -> guardsPending (run' trace w).
Proof.
  revert w. induction trace as [|[now e] trace IH]; intros w W G; simpl.
  - exact G.
  - apply IH.
    + now apply wellFormed_step.
    + now apply guardsPending_step.
Qed.

End GuardFacts.

(** X16.  No abort timer outlives its call: after any run, every armed
    timer whose callback is [abort] is the guard of a call that is still
    pending. *)
Theorem abort_timers_guard_pending
        (RequestData : Type) (requestTimeout requestInterval : Z)
        (headers : list (string * string))
        (trace : list (Z * Event RequestData)) (t : Timer) :
  In t (timers (run requestTimeout requestInterval headers trace
                    (@initial RequestData))) ->
  callback t = AbortMethod ->
  exists k,
    In k (inFlight (run requestTimeout requestInterval headers trace initial))
    /\ guard k = timerId t.
Proof.
  apply guardsPending_run.
  - apply wellFormed_initial.
  - intros t' [].
Qed.

Lemma abort_timers_guard_pending_witness :
  exists k,
    In k (inFlight (run (RequestData := nat) 10000 1000 sampleHeaders
                        [(0, CallSendRequests); (500, CallSendRequests);
                         (700, Settles 1%nat false)]%Z initial))
    /\ guard k = 2%nat.
Proof.
  apply (abort_timers_guard_pending nat 10000 1000 sampleHeaders
           [(0, CallSendRequests); (500, CallSendRequests);
            (700, Settles 1%nat false)]%Z
           {| timerId := 2%nat; callback := AbortMethod;
              delay := 10000%Z; armedAt := 500%Z |}).
  - left. reflexivity.
  - reflexivity.
Defined.
